(** * export_and_adapt.py: cleaning rules, schema translation and load script

    A shallow embedding of [export_and_adapt.py] (SQLite to PostgreSQL
    export).  Python values are an inductive type, Python exceptions are an
    explicit outcome, [str] is ASCII text ([string]), [int] is [Z] and
    [float] is IEEE-754 binary64 in the form of [spec_float].

    The script leans on three library calls, modelled here as far as the
    script uses them: [float] on text (correctly rounded decimal to binary
    conversion), [datetime.fromisoformat] (the parser of the C implementation
    of CPython 3.11, with everything it lets pass) and [strftime].  Paths are
    joined and split as on POSIX, and [os.path.abspath] is a parameter of the
    search for the project directory.  The two statements that carry a table
    name may be refused by SQLite; the connection, the catalogue query and
    the writing of files are taken to succeed. *)

From Stdlib Require Import ZArith List String Ascii Bool Lia Setoid Permutation.
From Stdlib Require Import Floats.SpecFloat.
Import ListNotations.

Local Open Scope string_scope.
Local Open Scope Z_scope.

(** ** Python values and exceptions *)

(** [sqlite3_Error] stands for the exceptions of the [sqlite3] module
    ([sqlite3.Error] and its subclasses), none of which is a [ValueError] or
    a [TypeError]. *)
Inductive pyexn : Type :=
| ValueError
| TypeError
| OverflowError
| sqlite3_Error.

(** The result of running a Python expression: a value, or a raised
    exception that propagates until some [except] clause names it. *)
Inductive outcome (A : Type) : Type :=
| Return (a : A)
| Raise (e : pyexn).

Arguments Return {A} a.
Arguments Raise {A} e.

Definition bind {A B : Type} (m : outcome A) (k : A -> outcome B) : outcome B :=
  match m with
  | Return a => k a
  | Raise e => Raise e
  end.

Notation "x <- m ;; k" := (bind m (fun x => k))
  (at level 61, m at next level, right associativity).

Notation "' pat <- m ;; k" := (bind m (fun x => let 'pat := x in k))
  (at level 61, pat pattern, m at next level, right associativity).

(** [try: body / except (ValueError, TypeError): return handler]. *)
Definition except_Value_Type {A : Type} (body : outcome A) (handler : A) : outcome A :=
  match body with
  | Return a => Return a
  | Raise ValueError => Return handler
  | Raise TypeError => Return handler
  | Raise e => Raise e
  end.

(** What a cell fetched through [sqlite3] can be ([None], [int], [float],
    [str], [bytes]); [VOther] stands for an object of any other type. *)
Inductive value : Type :=
| VNone
| VInt (n : Z)
| VFloat (f : spec_float)
| VStr (s : string)
| VBytes (b : string)
| VOther.

(** ** Characters and strings *)

Definition code (c : ascii) : Z := Z.of_N (N_of_ascii c).

Definition is_digit (c : ascii) : bool := (48 <=? code c) && (code c <=? 57).

Definition digit_val (c : ascii) : Z := code c - 48.

(** [int] of a string of ASCII digits, most significant first. *)
Fixpoint digits_value (acc : Z) (s : string) : Z :=
  match s with
  | EmptyString => acc
  | String c t => digits_value (10 * acc + digit_val c) t
  end.

(** Longest prefix of digits, and what follows it. *)
Fixpoint span_digits (s : string) : string * string :=
  match s with
  | EmptyString => (EmptyString, EmptyString)
  | String c t =>
      if is_digit c
      then let (d, r) := span_digits t in (String c d, r)
      else (EmptyString, s)
  end.

Fixpoint string_rev_onto (s acc : string) : string :=
  match s with
  | EmptyString => acc
  | String c t => string_rev_onto t (String c acc)
  end.

Definition string_rev (s : string) : string := string_rev_onto s EmptyString.

Definition lower (c : ascii) : ascii :=
  if (65 <=? code c) && (code c <=? 90) then ascii_of_N (Z.to_N (code c + 32)) else c.

Definition upper_char (c : ascii) : ascii :=
  if (97 <=? code c) && (code c <=? 122) then ascii_of_N (Z.to_N (code c - 32)) else c.

Fixpoint map_string (f : ascii -> ascii) (s : string) : string :=
  match s with
  | EmptyString => EmptyString
  | String c t => String (f c) (map_string f t)
  end.

(** [s.upper()] on ASCII text: the letters [a] to [z] are the ones that
    change. *)
Definition upper (s : string) : string := map_string upper_char s.

(** ** [float(value)] and [int(float)] *)

Definition prec : Z := 53.
Definition emax : Z := 1024.

(** The whitespace [float] strips: space, \t, \n, \v, \f, \r. *)
Definition is_space (c : ascii) : bool :=
  (code c =? 32) || ((9 <=? code c) && (code c <=? 13)).

Fixpoint lstrip (s : string) : string :=
  match s with
  | String c t => if is_space c then lstrip t else s
  | EmptyString => EmptyString
  end.

Definition strip (s : string) : string :=
  string_rev (lstrip (string_rev (lstrip s))).

(** Digit separators: an underscore stands only between two digits.  Returns
    the text without them, or [None] where one is misplaced. *)
Fixpoint drop_underscores (prev : ascii) (s : string) : option string :=
  match s with
  | EmptyString => if Ascii.eqb prev "_" then None else Some EmptyString
  | String c t =>
      if Ascii.eqb c "_"
      then if is_digit prev then drop_underscores c t else None
      else if Ascii.eqb prev "_" && negb (is_digit c) then None
           else match drop_underscores c t with
                | Some r => Some (String c r)
                | None => None
                end
  end.

(** Optional sign in front of a number: [(negative, rest)]. *)
Definition take_sign (s : string) : bool * string :=
  match s with
  | String c t =>
      if Ascii.eqb c "-" then (true, t)
      else if Ascii.eqb c "+" then (false, t)
      else (false, s)
  | EmptyString => (false, s)
  end.

(** A decimal literal [digits [. digits] [(e|E) [+|-] digits]] read as
    [(m, e)], meaning [m * 10 ^ e]. *)
Definition parse_decimal (s : string) : option (Z * Z) :=
  let (ip, r1) := span_digits s in
  let (fp, r2) :=
    match r1 with
    | String c t => if Ascii.eqb c "." then span_digits t else (EmptyString, r1)
    | EmptyString => (EmptyString, r1)
    end in
  match ip ++ fp with
  | EmptyString => None
  | ds =>
      let m := digits_value 0 ds in
      let fe := - Z.of_nat (String.length fp) in
      match r2 with
      | EmptyString => Some (m, fe)
      | String c t =>
          if Ascii.eqb (lower c) "e"
          then let (neg, t') := take_sign t in
               match span_digits t' with
               | (String d ds', EmptyString) =>
                   let x := digits_value 0 (String d ds') in
                   Some (m, fe + (if neg then - x else x))
               | _ => None
               end
          else None
      end
  end.

(** The binary64 nearest to [m * 10 ^ e] (ties to even), as the correctly
    rounded [strtod] behind [float] gives it; magnitudes past the largest
    finite double become an infinity. *)
Definition float_of_decimal (neg : bool) (m e : Z) : spec_float :=
  match m with
  | Zpos p =>
      if 0 <=? e
      then binary_round prec emax neg (Z.to_pos (m * 10 ^ e)) 0
      else let '(q, e', l) := SFdiv_core_binary prec emax m 0 (10 ^ (- e)) 0 in
           binary_round_aux prec emax neg q e' l
  | _ => S754_zero neg
  end.

(** [float(s)] for ASCII text: separators removed, whitespace stripped, then
    a signed decimal literal, [inf], [infinity] or [nan] in any case. *)
Definition float_of_string (s : string) : outcome spec_float :=
  match drop_underscores " " s with
  | None => Raise ValueError
  | Some s1 =>
      let (neg, body) := take_sign (strip s1) in
      match parse_decimal body with
      | Some (m, e) => Return (float_of_decimal neg m e)
      | None =>
          let w := map_string lower body in
          if String.eqb w "inf" || String.eqb w "infinity" then Return (S754_infinity neg)
          else if String.eqb w "nan" then Return S754_nan
          else Raise ValueError
      end
  end.

(** [float(n)] for an [int]: nearest double, [OverflowError] past the range. *)
Definition float_of_int (n : Z) : outcome spec_float :=
  match binary_normalize prec emax n 0 false with
  | S754_infinity _ => Raise OverflowError
  | f => Return f
  end.

Definition py_float (v : value) : outcome spec_float :=
  match v with
  | VInt n => float_of_int n
  | VFloat f => Return f
  | VStr s => float_of_string s
  | VBytes b => float_of_string b
  | VNone => Raise TypeError
  | VOther => Raise TypeError
  end.

(** [int(f)]: truncation toward zero; [nan] and the infinities have none. *)
Definition py_int (f : spec_float) : outcome Z :=
  match f with
  | S754_nan => Raise ValueError
  | S754_infinity _ => Raise OverflowError
  | S754_zero _ => Return 0
  | S754_finite s m e =>
      let a := if 0 <=? e then Zpos m * 2 ^ e else Zpos m / 2 ^ (- e) in
      Return (if s then - a else a)
  end.

(** ** [clean_integer] *)

Definition clean_integer (v : value) : outcome value :=
  match v with
  | VNone => Return VNone
  | _ =>
      except_Value_Type
        (f <- py_float v ;;
         val <- py_int f ;;
         Return (if (- 2 ^ 63 <=? val) && (val <=? 2 ^ 63 - 1) then VInt val else VNone))
        VNone
  end.

(** ** [datetime]: the calendar

    The proleptic Gregorian calendar of the [datetime] module, ordinals
    counted from 1 January of year 1. *)

Definition MINYEAR : Z := 1.
Definition MAXYEAR : Z := 9999.

Definition is_leap (y : Z) : bool :=
  (y mod 4 =? 0) && (negb (y mod 100 =? 0) || (y mod 400 =? 0)).

Definition days_before_year (yr : Z) : Z :=
  let y := yr - 1 in y * 365 + y / 4 - y / 100 + y / 400.

Definition DAYS_IN_MONTH (m : Z) : Z :=
  match m with
  | 1 => 31 | 2 => 28 | 3 => 31 | 4 => 30 | 5 => 31 | 6 => 30
  | 7 => 31 | 8 => 31 | 9 => 30 | 10 => 31 | 11 => 30 | 12 => 31
  | _ => -1
  end.

Definition DAYS_BEFORE_MONTH (m : Z) : Z :=
  match m with
  | 1 => 0 | 2 => 31 | 3 => 59 | 4 => 90 | 5 => 120 | 6 => 151
  | 7 => 181 | 8 => 212 | 9 => 243 | 10 => 273 | 11 => 304 | 12 => 334
  | _ => -1
  end.

Definition days_in_month (y m : Z) : Z :=
  if (m =? 2) && is_leap y then 29 else DAYS_IN_MONTH m.

Definition days_before_month (y m : Z) : Z :=
  DAYS_BEFORE_MONTH m + (if (2 <? m) && is_leap y then 1 else 0).

Definition ymd2ord (y m d : Z) : Z :=
  days_before_year y + days_before_month y m + d.

Definition DI400Y : Z := days_before_year 401.
Definition DI100Y : Z := days_before_year 101.
Definition DI4Y : Z := days_before_year 5.

Definition ord2ymd (n0 : Z) : Z * Z * Z :=
  let n := n0 - 1 in
  let n400 := n / DI400Y in
  let n := n mod DI400Y in
  let yr := n400 * 400 + 1 in
  let n100 := n / DI100Y in
  let n := n mod DI100Y in
  let n4 := n / DI4Y in
  let n := n mod DI4Y in
  let n1 := n / 365 in
  let n := n mod 365 in
  let yr := yr + n100 * 100 + n4 * 4 + n1 in
  if (n1 =? 4) || (n100 =? 4) then (yr - 1, 12, 31)
  else
    let leapyear := (n1 =? 3) && (negb (n4 =? 24) || (n100 =? 3)) in
    let mo := Z.shiftr (n + 50) 5 in
    let preceding := DAYS_BEFORE_MONTH mo + (if (2 <? mo) && leapyear then 1 else 0) in
    if n <? preceding
    then let mo := mo - 1 in
         let preceding :=
           preceding - (DAYS_IN_MONTH mo + (if (mo =? 2) && leapyear then 1 else 0)) in
         (yr, mo, n - preceding + 1)
    else (yr, mo, n - preceding + 1).

Definition isoweek1monday (y : Z) : Z :=
  let firstday := ymd2ord y 1 1 in
  let firstweekday := (firstday + 6) mod 7 in
  let week1monday := firstday - firstweekday in
  if 3 <? firstweekday then week1monday + 7 else week1monday.

(** The calendar date of an ISO week date.  The year is checked here; the C
    code leaves that to the constructor, which refuses the same dates. *)
Definition isoweek_to_gregorian (y week wday : Z) : outcome (Z * Z * Z) :=
  if negb ((MINYEAR <=? y) && (y <=? MAXYEAR)) then Raise ValueError
  else
    let out_of_range :=
      if (0 <? week) && (week <? 53) then false
      else if week =? 53
           then let first_weekday := ymd2ord y 1 1 mod 7 in
                negb ((first_weekday =? 4) || ((first_weekday =? 3) && is_leap y))
           else true in
    if out_of_range then Raise ValueError
    else if negb ((0 <? wday) && (wday <? 8)) then Raise ValueError
    else
      let day_offset := (week - 1) * 7 + (wday - 1) in
      Return (ord2ymd (isoweek1monday y + day_offset)).

(** ** [datetime]: values *)

(** A [datetime]; [tzinfo] is the UTC offset of a fixed-offset [timezone] in
    microseconds, [None] for a naive value. *)
Record datetime : Type := mk_datetime {
  year : Z;
  month : Z;
  day : Z;
  hour : Z;
  minute : Z;
  second : Z;
  microsecond : Z;
  tzinfo : option Z
}.

Definition MAXOFFSET : Z := 24 * 3600 * 1000000 - 1.

Definition in_range (lo x hi : Z) : bool := (lo <=? x) && (x <=? hi).

(** The field checks of the [datetime] constructor. *)
Definition check_fields (dt : datetime) : bool :=
  in_range MINYEAR (year dt) MAXYEAR
  && in_range 1 (month dt) 12
  && in_range 1 (day dt) (days_in_month (year dt) (month dt))
  && in_range 0 (hour dt) 23
  && in_range 0 (minute dt) 59
  && in_range 0 (second dt) 59
  && in_range 0 (microsecond dt) 999999.

Definition new_datetime (y mo d h mi s us : Z) (tz : option Z) : outcome datetime :=
  let dt := mk_datetime y mo d h mi s us tz in
  if check_fields dt then Return dt else Raise ValueError.

(** ** [datetime.fromisoformat]

    The parser of the C implementation, which works on the NUL-terminated
    buffer of the text: a position [p] is the text from there on, [*p] past
    the last character is NUL, and a length says where the parsed part ends.
    The date is [YYYY-MM-DD], [YYYYMMDD], or an ISO week date ([YYYY-Www],
    [YYYY-Www-D] and the same without hyphens); one character of any kind
    separates it from the time [HH[:MM[:SS]]] with an optional fraction
    (colons all present or all absent), which may end in [Z] or a signed
    offset of the same form.  The fields then pass the range checks of the
    [datetime] constructor. *)

Definition nonempty (s : string) : bool :=
  match s with
  | EmptyString => false
  | String _ _ => true
  end.

Fixpoint all_digits (s : string) : bool :=
  match s with
  | EmptyString => true
  | String c t => is_digit c && all_digits t
  end.

Definition NUL : ascii := "000"%char.

(** [*p]. *)
Definition peek (p : string) : ascii :=
  match p with
  | String c _ => c
  | EmptyString => NUL
  end.

(** [p + 1]. *)
Definition advance (p : string) : string :=
  match p with
  | String _ t => t
  | EmptyString => EmptyString
  end.

(** [p + n]. *)
Fixpoint advance_by (n : nat) (p : string) : string :=
  match n with
  | O => p
  | S n' => advance_by n' (advance p)
  end.

(** [num_digits] digits read from [p] on top of [var]: the number and the
    position after it. *)
Fixpoint parse_digits (p : string) (var : Z) (num_digits : nat) : option (Z * string) :=
  match num_digits with
  | O => Some (var, p)
  | S n =>
      if is_digit (peek p)
      then parse_digits (advance p) (10 * var + digit_val (peek p)) n
      else None
  end.

(** [s[i:i+1] == c]. *)
Definition at_is (s : string) (i : nat) (c : ascii) : bool :=
  match String.get i s with
  | Some x => Ascii.eqb x c
  | None => false
  end.

(** [s.find(c)]. *)
Fixpoint find_char (c : ascii) (s : string) : option nat :=
  match s with
  | EmptyString => None
  | String x t =>
      if Ascii.eqb x c then Some O
      else match find_char c t with
           | Some i => Some (S i)
           | None => None
           end
  end.

Definition b2n (b : bool) : nat := if b then 1%nat else 0%nat.

(** Where the date part ends: 7, 8 or 10 characters in. *)
Definition find_isoformat_datetime_separator (dtstr : string) : outcome nat :=
  let len_dtstr := String.length dtstr in
  if Nat.eqb len_dtstr 7 then Return 7%nat
  else if at_is dtstr 4 "-" then
    if at_is dtstr 5 "W" then
      if Nat.ltb len_dtstr 8 then Raise ValueError
      else if Nat.ltb 8 len_dtstr && at_is dtstr 8 "-" then
        if Nat.eqb len_dtstr 9 then Raise ValueError
        else if Nat.ltb 10 len_dtstr
                && match String.get 10 dtstr with Some c => is_digit c | None => false end
             then Return 8%nat
             else Return 10%nat
      else Return 8%nat
    else Return 10%nat
  else if at_is dtstr 4 "W" then
    let idx := (7 + String.length (fst (span_digits (substring 7 len_dtstr dtstr))))%nat in
    if Nat.ltb idx 9 then Return idx
    else if Nat.even idx then Return 7%nat
    else Return 8%nat
  else Return 8%nat.

(** The date at the start of [dtstr]; [len] is where the separator was
    found, and decides whether a week date has a day. *)
Definition parse_isoformat_date (dtstr : string) (len : nat) : outcome (Z * Z * Z) :=
  match parse_digits dtstr 0 4 with
  | None => Raise ValueError
  | Some (yr, p) =>
      let uses_separator := Ascii.eqb (peek p) "-" in
      let p := if uses_separator then advance p else p in
      if Ascii.eqb (peek p) "W" then
        match parse_digits (advance p) 0 2 with
        | None => Raise ValueError
        | Some (iso_week, p) =>
            if Nat.ltb (7 + b2n uses_separator) len then
              if uses_separator && negb (Ascii.eqb (peek p) "-") then Raise ValueError
              else
                match parse_digits (if uses_separator then advance p else p) 0 1 with
                | None => Raise ValueError
                | Some (iso_day, _) => isoweek_to_gregorian yr iso_week iso_day
                end
            else isoweek_to_gregorian yr iso_week 1
        end
      else
        match parse_digits p 0 2 with
        | None => Raise ValueError
        | Some (mo, p) =>
            if uses_separator && negb (Ascii.eqb (peek p) "-") then Raise ValueError
            else
              match parse_digits (if uses_separator then advance p else p) 0 2 with
              | None => Raise ValueError
              | Some (d, _) => Return (yr, mo, d)
              end
        end
  end.

(** [while (is_digit( *p)) ++p]. *)
Fixpoint skip_digits (p : string) : string :=
  match p with
  | String c t => if is_digit c then skip_digits t else p
  | EmptyString => EmptyString
  end.

(** The fraction in the [len_remains] characters from [p]: digits, of which
    six are kept.  The flag says that the text goes on after them. *)
Definition parse_fraction (p : string) (len_remains : nat) : outcome (Z * bool) :=
  let to_parse := Nat.min 6 len_remains in
  match parse_digits p 0 to_parse with
  | None => Raise ValueError
  | Some (us, p) =>
      Return (us * 10 ^ Z.of_nat (6 - to_parse),
              negb (Ascii.eqb (peek (skip_digits p)) NUL))
  end.

(** How one turn of the loop over hour, minute and second ends. *)
Inductive after_field : Type :=
| Stop (unparsed : bool)
| Continue (p : string) (len : nat)
| Break (p : string) (len : nat).

(** One turn: two digits and the character after them; [len] characters
    are left from [p] to the end of the part that is parsed.  The first turn
    decides whether the fields are separated by colons. *)
Definition parse_field (first has_separator : bool) (p : string) (len : nat)
  : outcome (Z * bool * after_field) :=
  match parse_digits p 0 2 with
  | None => Raise ValueError
  | Some (v, p) =>
      let c := peek p in
      let has_separator := if first then Ascii.eqb c ":" else has_separator in
      if Nat.leb len 3 then Return (v, has_separator, Stop (negb (Ascii.eqb c NUL)))
      else if has_separator && Ascii.eqb c ":"
      then Return (v, has_separator, Continue (advance p) (len - 3))
      else if Ascii.eqb c "." || Ascii.eqb c ","
      then Return (v, has_separator, Break (advance p) (len - 3))
      else if negb has_separator
      then Return (v, has_separator, Continue p (len - 2))
      else Raise ValueError
  end.

(** [HH[:MM[:SS]]] or the same without colons, and a fraction after a dot,
    a comma, or the seconds: [(hour, minute, second, microsecond)] and
    whether the text goes on after the last character read. *)
Definition parse_hh_mm_ss_ff (tstr : string) (len : nat)
  : outcome (Z * Z * Z * Z * bool) :=
  '(hh, has_separator, next) <- parse_field true true tstr len ;;
  match next with
  | Stop unparsed => Return (hh, 0, 0, 0, unparsed)
  | Break p len =>
      '(us, unparsed) <- parse_fraction p len ;;
      Return (hh, 0, 0, us, unparsed)
  | Continue p len =>
      '(mm, _, next) <- parse_field false has_separator p len ;;
      match next with
      | Stop unparsed => Return (hh, mm, 0, 0, unparsed)
      | Break p len =>
          '(us, unparsed) <- parse_fraction p len ;;
          Return (hh, mm, 0, us, unparsed)
      | Continue p len =>
          '(ss, _, next) <- parse_field false has_separator p len ;;
          match next with
          | Stop unparsed => Return (hh, mm, ss, 0, unparsed)
          | Break p len | Continue p len =>
              '(us, unparsed) <- parse_fraction p len ;;
              Return (hh, mm, ss, us, unparsed)
          end
      end
  end.

Definition is_tz_char (c : ascii) : bool :=
  Ascii.eqb c "Z" || Ascii.eqb c "+" || Ascii.eqb c "-".

(** The first [Z], [+] or [-] of the text, or its end.  (On an empty text
    the loop of the C code stops one character further; no time is read from
    an empty text either way.) *)
Fixpoint find_tzinfo (p : string) : nat :=
  match p with
  | EmptyString => O
  | String c t => if is_tz_char c then O else S (find_tzinfo t)
  end.

(** The fixed-offset zone read after the sign; an offset of zero whole
    seconds is UTC, and the offset stays strictly inside one day. *)
Definition timezone_of (negative : bool) (hh mm ss us : Z) : outcome (option Z) :=
  if (hh * 60 + mm) * 60 + ss =? 0 then Return (Some 0)
  else
    let td := ((hh * 60 + mm) * 60 + ss) * 1000000 + us in
    let off := if negative then - td else td in
    if in_range (- MAXOFFSET) off MAXOFFSET then Return (Some off) else Raise ValueError.

(** The time and the zone.  What is left between the time and the zone
    designator is not looked at; without a designator nothing may be left. *)
Definition parse_isoformat_time (dtstr : string)
  : outcome (Z * Z * Z * Z * option Z) :=
  let dtlen := String.length dtstr in
  let tzinfo_pos := find_tzinfo dtstr in
  '(hh, mm, ss, us, unparsed) <- parse_hh_mm_ss_ff dtstr tzinfo_pos ;;
  if Nat.eqb tzinfo_pos dtlen
  then if unparsed then Raise ValueError else Return (hh, mm, ss, us, None)
  else
    let tz := advance_by tzinfo_pos dtstr in
    if Ascii.eqb (peek tz) "Z"
    then if Ascii.eqb (peek (advance tz)) NUL
         then Return (hh, mm, ss, us, Some 0)
         else Raise ValueError
    else
      '(th, tm, ts, tu, unparsed) <-
        parse_hh_mm_ss_ff (advance tz) (dtlen - S tzinfo_pos) ;;
      if unparsed then Raise ValueError
      else
        tz <- timezone_of (Ascii.eqb (peek tz) "-") th tm ts tu ;;
        Return (hh, mm, ss, us, tz).

Definition fromisoformat (date_string : string) : outcome datetime :=
  let n := String.length date_string in
  if Nat.ltb n 7 then Raise ValueError
  else
    sep <- find_isoformat_datetime_separator date_string ;;
    '(yr, mo, d) <- parse_isoformat_date date_string sep ;;
    '(hh, mm, ss, us, tz) <-
      (if Nat.ltb sep n
       then parse_isoformat_time (advance_by (S sep) date_string)
       else Return (0, 0, 0, 0, None)) ;;
    new_datetime yr mo d hh mm ss us tz.

(** ** [strftime('%Y-%m-%d %H:%M:%S%z')] *)

(** The ASCII digit for [n mod 10]. *)
Definition dc (n : Z) : ascii := ascii_of_N (Z.to_N (48 + n mod 10)).

(** [n] in [w] decimal digits, zero filled: ['%0wd' % n] for
    [0 <= n < 10 ^ w], the range of every field printed below. *)
Fixpoint pad (w : nat) (n : Z) : string :=
  match w with
  | O => EmptyString
  | S w' => pad w' (n / 10) ++ String (dc n) EmptyString
  end.

(** [%z]: nothing for a naive value, else the sign and [HHMM], followed by
    [SS] when the offset has seconds and by [.ffffff] when it has
    microseconds. *)
Definition format_utcoffset (tz : option Z) : string :=
  match tz with
  | None => EmptyString
  | Some off =>
      let sign := if off <? 0 then "-" else "+" in
      let o := Z.abs off in
      let h := o / 3600000000 in
      let rest := o mod 3600000000 in
      let m := rest / 60000000 in
      let s := (rest mod 60000000) / 1000000 in
      let u := o mod 1000000 in
      if negb (u =? 0)
      then sign ++ pad 2 h ++ pad 2 m ++ pad 2 s ++ "." ++ pad 6 u
      else if negb (s =? 0)
           then sign ++ pad 2 h ++ pad 2 m ++ pad 2 s
           else sign ++ pad 2 h ++ pad 2 m
  end.

(** [s.replace(old, new)] for a one-character [old]. *)
Fixpoint replace (old : ascii) (new : string) (s : string) : string :=
  match s with
  | EmptyString => EmptyString
  | String c t =>
      if Ascii.eqb c old then new ++ replace old new t
      else String c (replace old new t)
  end.

(** [value.replace('Z', '+00:00').replace(' ', 'T')]. *)
Definition iso_text (s : string) : string :=
  replace " " "T" (replace "Z" "+00:00" s).

(** How [strftime] prints [%Y].  CPython 3.11 hands the directive to the C
    library, and glibc prints a year below 1000 as the bare number; where the
    C library or the interpreter fills the year, it always has four digits. *)
Inductive year_format : Type :=
| BareYear
| FourDigitYear.

Definition format_year (yf : year_format) (y : Z) : string :=
  match yf with
  | FourDigitYear => pad 4 y
  | BareYear =>
      if y <? 10 then pad 1 y
      else if y <? 100 then pad 2 y
      else if y <? 1000 then pad 3 y
      else pad 4 y
  end.

(** The rest of the script is read on a platform with a given [%Y]. *)
Section Platform.

Variable yf : year_format.

(** ['%Y-%m-%d %H:%M:%S']. *)
Definition strftime_seconds (dt : datetime) : string :=
  format_year yf (year dt) ++ "-" ++ pad 2 (month dt) ++ "-" ++ pad 2 (day dt) ++ " "
  ++ pad 2 (hour dt) ++ ":" ++ pad 2 (minute dt) ++ ":" ++ pad 2 (second dt).

Definition strftime (dt : datetime) : string :=
  strftime_seconds dt ++ format_utcoffset (tzinfo dt).

(** ** [clean_timestamp] *)

Definition clean_timestamp (v : value) : outcome value :=
  match v with
  | VStr (String _ _ as s) =>
      except_Value_Type
        (dt <- fromisoformat (iso_text s) ;;
         Return (VStr (strftime dt)))
        VNone
  | _ => Return v
  end.

(** ** Text helpers of the script *)

Definition nl : string := String "010"%char EmptyString.

(** [sep.join(l)]. *)
Fixpoint join (sep : string) (l : list string) : string :=
  match l with
  | [] => EmptyString
  | [x] => x
  | x :: t => x ++ sep ++ join sep t
  end.

(** [s.endswith(suffix)]. *)
Definition endswith (s suffix : string) : bool :=
  let n := String.length s in
  let m := String.length suffix in
  Nat.leb m n && String.eqb (substring (n - m) m s) suffix.

(** [needle in s]. *)
Fixpoint contains (needle s : string) : bool :=
  prefix needle s
  || match s with
     | EmptyString => false
     | String _ t => contains needle t
     end.

(** [s.rstrip(ch)] for one character. *)
Fixpoint rstrip_char (ch : ascii) (s : string) : string :=
  match s with
  | EmptyString => EmptyString
  | String c t =>
      match rstrip_char ch t with
      | EmptyString => if Ascii.eqb c ch then EmptyString else String c EmptyString
      | t' => String c t'
      end
  end.

(** [l[-1] = f(l[-1])]. *)
Fixpoint map_last {A : Type} (f : A -> A) (l : list A) : list A :=
  match l with
  | [] => []
  | [x] => [f x]
  | x :: t => x :: map_last f t
  end.

(** [os.path.join(a, b)] on POSIX. *)
Definition path_join (a b : string) : string :=
  if prefix "/" b then b
  else if negb (nonempty a) || endswith a "/" then a ++ b
  else a ++ "/" ++ b.

(** Truth value of an [int]. *)
Definition truthy (n : Z) : bool := negb (n =? 0).

(** ** Configuration *)

Definition OUTPUT_DIR : string := "exported_csvs".
Definition SCHEMA_OUTPUT : string := "schema_postgres.sql".
Definition IMPORT_SCRIPT : string := "import_to_postgres.sql".

(** ** Per-column cleaning dispatch *)

Inductive cleaning_rule : Type :=
| TimestampRule
| IntegerRule
| PassThrough.

(** The [if]/[elif] on the column name, first match wins. *)
Definition rule_for (col_name : string) : cleaning_rule :=
  if endswith col_name "_updated" || endswith col_name "_date" then TimestampRule
  else if contains "shares" col_name || contains "id" col_name then IntegerRule
  else PassThrough.

Definition clean_cell (col_name : string) (v : value) : outcome value :=
  match rule_for col_name with
  | TimestampRule => clean_timestamp v
  | IntegerRule => clean_integer v
  | PassThrough => Return v
  end.

(** [for col_name, value in zip(column_names, row)]. *)
Fixpoint clean_row (column_names : list string) (row : list value) : outcome (list value) :=
  match column_names, row with
  | col_name :: names, v :: vs =>
      v' <- clean_cell col_name v ;;
      rest <- clean_row names vs ;;
      Return (v' :: rest)
  | _, _ => Return []
  end.

Fixpoint clean_rows (column_names : list string) (rows : list (list value))
  : outcome (list (list value)) :=
  match rows with
  | [] => Return []
  | row :: more =>
      cleaned_row <- clean_row column_names row ;;
      rest <- clean_rows column_names more ;;
      Return (cleaned_row :: rest)
  end.

(** ** Schema translation *)

(** One row of [PRAGMA table_info]: [col[1]] to [col[5]] under the names the
    schema loop gives them.  [is_pk] is 0 for a column outside the primary
    key and the 1-based position of the column inside the key otherwise. *)
Record column_info : Type := mk_column {
  col_name : string;
  col_type : string;
  not_null : Z;
  default : option string;
  is_pk : Z
}.

Definition type_map (is_pk : Z) : list (string * string) :=
  [ ("INTEGER", if truthy is_pk then "BIGSERIAL" else "BIGINT");
    ("TEXT", "TEXT");
    ("REAL", "DOUBLE PRECISION");
    ("DATETIME", "TIMESTAMP WITH TIME ZONE");
    ("", "TEXT") ].

(** [d.get(key, fallback)]. *)
Fixpoint dict_get (d : list (string * string)) (key fallback : string) : string :=
  match d with
  | [] => fallback
  | (k, v) :: rest => if String.eqb k key then v else dict_get rest key fallback
  end.

Definition map_sqlite_to_postgres (sqlite_type : string) (is_pk : Z) : string :=
  dict_get (type_map is_pk) (upper sqlite_type) "TEXT".

(** [pk_columns = [col[1] for col in columns if col[5] == 1]]. *)
Definition pk_columns_of (columns : list column_info) : list string :=
  map col_name (filter (fun col => is_pk col =? 1) columns).

Definition column_sql (col : column_info) : string :=
  let pg_type := map_sqlite_to_postgres (col_type col) (is_pk col) in
  let constraints :=
    if truthy (not_null col) && negb (truthy (is_pk col)) then " NOT NULL" else "" in
  let constraints :=
    match default col with
    | Some d => if negb (truthy (is_pk col)) then constraints ++ " DEFAULT " ++ d
                else constraints
    | None => constraints
    end in
  "    " ++ col_name col ++ " " ++ pg_type ++ constraints ++ ",".

Definition pkey_constraint (table : string) (pk_columns : list string) : string :=
  "    CONSTRAINT " ++ table ++ "_pkey PRIMARY KEY (" ++ join ", " pk_columns ++ ")".

(** The lines of one [CREATE TABLE] statement. *)
Definition table_sql (table : string) (columns : list column_info) : list string :=
  let lines := ("CREATE TABLE IF NOT EXISTS " ++ table ++ " (") :: map column_sql columns in
  let lines :=
    match pk_columns_of columns with
    | _ :: _ => List.app lines [pkey_constraint table (pk_columns_of columns)]
    | [] => map_last (rstrip_char ",") lines
    end in
  List.app lines [");"].

Definition create_table_sql (table : string) (columns : list column_info) : string :=
  join nl (table_sql table columns).

(** ** Load script *)

Definition delete_orphans_sql (table : string) : string :=
  nl ++ "            DELETE FROM staging_" ++ table
  ++ nl ++ "            WHERE company_id IS NOT NULL"
  ++ nl ++ "            AND company_id NOT IN (SELECT company_id FROM companies);"
  ++ nl ++ "            ".

Definition upsert_sql (table : string) (columns : list column_info) : string :=
  let pk_columns := pk_columns_of columns in
  nl ++ "        INSERT INTO " ++ table
  ++ nl ++ "        SELECT * FROM staging_" ++ table
  ++ nl ++ "        ON CONFLICT (" ++ join ", " pk_columns ++ ") DO UPDATE SET"
  ++ nl ++ "        "
  ++ join ", "
       (map (fun col => col_name col ++ " = EXCLUDED." ++ col_name col)
          (filter (fun col => negb (existsb (String.eqb (col_name col)) pk_columns)) columns))
  ++ ";" ++ nl ++ "        ".

Definition insert_all_sql (table : string) : string :=
  "INSERT INTO " ++ table ++ " SELECT * FROM staging_" ++ table ++ ";".

(** The statements appended to [import_sql] for one table. *)
Definition import_block (table : string) (columns : list column_info) (csv_path : string)
  : list string :=
  let staging :=
    [ "CREATE TABLE IF NOT EXISTS staging_" ++ table ++ " (LIKE " ++ table ++ ");";
      "TRUNCATE staging_" ++ table ++ ";";
      "\COPY staging_" ++ table ++ " FROM '" ++ csv_path
        ++ "' WITH (FORMAT csv, HEADER true, NULL '');" ] in
  let merge :=
    match pk_columns_of columns with
    | _ :: _ =>
        let has_company_id :=
          existsb (fun col => String.eqb (col_name col) "company_id") columns in
        List.app
          (if negb (String.eqb table "companies") && has_company_id
           then [delete_orphans_sql table] else [])
          [upsert_sql table columns]
    | [] => [insert_all_sql table]
    end in
  List.app staging (List.app merge ["DROP TABLE staging_" ++ table ++ ";"]).

(** ** The run *)

(** What the script reads from the source database: the table names of
    [sqlite_master] in catalogue order, and per table name what
    [PRAGMA table_info(<name>)] and [SELECT * FROM <name>] give.  The name
    goes into both statements as it is, so for a name that is not a plain
    identifier SQLite may refuse the statement: [None] stands for the
    exception [sqlite3] then raises. *)
Record database : Type := mk_database {
  sqlite_master : list string;
  table_info : string -> option (list column_info);
  select_all : string -> option (list (list value))
}.

(** [cursor.execute(...)] followed by [cursor.fetchall()]. *)
Definition fetchall {A : Type} (result : option A) : outcome A :=
  match result with
  | Some rows => Return rows
  | None => Raise sqlite3_Error
  end.

(** [l.remove(x)] when [x] is in [l]: the first occurrence goes. *)
Fixpoint remove_first (x : string) (l : list string) : list string :=
  match l with
  | [] => []
  | y :: t => if String.eqb y x then t else y :: remove_first x t
  end.

(** The table list in processing order: [sqlite_sequence] left out, then
    [companies] moved to the front when present. *)
Definition move_companies_first (tables : list string) : list string :=
  if existsb (String.eqb "companies") tables
  then "companies" :: remove_first "companies" tables
  else tables.

Definition list_tables (db : database) : list string :=
  move_companies_first
    (filter (fun t => negb (String.eqb t "sqlite_sequence")) (sqlite_master db)).

(** One exported file: path, header row, cleaned rows. *)
Record csv_file : Type := mk_csv {
  csv_path : string;
  csv_header : list string;
  csv_rows : list (list value)
}.

(** The accumulators of the table loop. *)
Record run_state : Type := mk_state {
  csv_files : list csv_file;
  schema_sql : list string;
  import_sql : list string
}.

Definition initial_state : run_state := mk_state [] [] [].

(** [csv_path], under the output directory of the project. *)
Definition csv_path_of (project_root table : string) : string :=
  path_join (path_join project_root OUTPUT_DIR) (table ++ ".csv").

(** One turn of [for table in tables]. *)
Definition export_table (project_root : string) (db : database)
    (st : run_state) (table : string) : outcome run_state :=
  columns <- fetchall (table_info db table) ;;
  let path := csv_path_of project_root table in
  rows <- fetchall (select_all db table) ;;
  let column_names := map col_name columns in
  cleaned_rows <- clean_rows column_names rows ;;
  Return
    (mk_state
       (List.app (csv_files st) [mk_csv path column_names cleaned_rows])
       (List.app (schema_sql st) [create_table_sql table columns])
       (List.app (import_sql st) (import_block table columns path))).

Fixpoint export_tables (project_root : string) (db : database)
    (st : run_state) (tables : list string) : outcome run_state :=
  match tables with
  | [] => Return st
  | table :: rest =>
      st' <- export_table project_root db st table ;;
      export_tables project_root db st' rest
  end.

Definition DEPENDENT_TABLES : list string :=
  [ "financials"; "capital_structure"; "mineral_estimates"; "production";
    "costs"; "valuation_metrics"; "company_urls"; "stock_prices" ].

Definition foreign_key_sql (table : string) : string :=
  "ALTER TABLE " ++ table
  ++ " ADD CONSTRAINT fk_company_id FOREIGN KEY (company_id) REFERENCES companies(company_id) ON DELETE SET NULL;"
  ++ nl.

Definition schema_header (now : datetime) : string :=
  "-- PostgreSQL Schema Generated on " ++ strftime_seconds now ++ nl ++ nl.

(** What follows the first line of the schema file. *)
Definition schema_body (stmts : list string) : string :=
  join (nl ++ nl) stmts
  ++ nl ++ nl ++ "-- Foreign Key Constraints" ++ nl
  ++ String.concat "" (map foreign_key_sql DEPENDENT_TABLES).

Definition schema_text (now : datetime) (stmts : list string) : string :=
  schema_header now ++ schema_body stmts.

Definition import_text (stmts : list string) : string := join nl stmts.

(** The files of a finished run. *)
Record artifacts : Type := mk_artifacts {
  exported : list csv_file;
  schema_file : string;
  import_file : string
}.

(** The whole script: [now] is what [datetime.now()] reads when the schema
    file is written, [project_root] the directory found by
    [find_project_root]. An exception out of the table loop, from a refused
    statement or from the cleaning of a row, ends the run before either
    script is written. *)
Definition run (now : datetime) (project_root : string) (db : database)
  : outcome artifacts :=
  st <- export_tables project_root db initial_state (list_tables db) ;;
  Return (mk_artifacts (csv_files st)
            (schema_text now (schema_sql st))
            (import_text (import_sql st))).

End Platform.

(** ** Locating the project directory *)

Definition PROJECT_DIR : string := "gold-silver-analysis-v2".

(** [s.rfind(c)]. *)
Fixpoint rfind_char (c : ascii) (s : string) : option nat :=
  match s with
  | EmptyString => None
  | String x t =>
      match rfind_char c t with
      | Some i => Some (S i)
      | None => if Ascii.eqb x c then Some O else None
      end
  end.

(** [p.rfind('/') + 1]. *)
Definition after_last_sep (p : string) : nat :=
  match rfind_char "/" p with
  | Some i => S i
  | None => O
  end.

(** [s == c * len(s)]. *)
Fixpoint only_char (c : ascii) (s : string) : bool :=
  match s with
  | EmptyString => true
  | String x t => Ascii.eqb x c && only_char c t
  end.

(** [os.path.basename(p)] on POSIX: what follows the last slash. *)
Definition basename (p : string) : string :=
  substring (after_last_sep p) (String.length p) p.

(** [os.path.dirname(p)] on POSIX: what precedes the last slash, without its
    trailing slashes unless it consists of slashes. *)
Definition dirname (p : string) : string :=
  let head := substring 0 (after_last_sep p) p in
  if nonempty head && negb (only_char "/" head) then rstrip_char "/" head else head.

(** How the search for the project directory ends: with the directory, or
    with [FileNotFoundError]. *)
Inductive root_search : Type :=
| Found (path : string)
| FileNotFoundError.

(** The [while] loop of [find_project_root], at most [fuel] turns of it;
    [None] when they do not suffice. *)
Fixpoint walk_up (fuel : nat) (current_path : string) : option root_search :=
  match fuel with
  | O => None
  | S fuel' =>
      if String.eqb current_path (dirname current_path) then Some FileNotFoundError
      else if String.eqb (basename current_path) PROJECT_DIR then Some (Found current_path)
      else walk_up fuel' (dirname current_path)
  end.

(** [abspath] is [os.path.abspath], which depends on the working directory
    of the process. Every turn of the loop shortens the path, so one turn
    more than the path has characters is enough. *)
Definition find_project_root (abspath : string -> string) (start_path : string)
  : option root_search :=
  let current_path := abspath start_path in
  walk_up (S (String.length current_path)) current_path.

(** ** Vocabulary of the properties *)

(** Whatever [m] raises is a [ValueError]. *)
Definition only_ValueError {A : Type} (m : outcome A) : Prop :=
  forall e, m = Raise e -> e = ValueError.

(** The columns SQLite counts into the primary key of a table. *)
Definition primary_key_columns (columns : list column_info) : list column_info :=
  filter (fun col => truthy (is_pk col)) columns.

(** What [PRAGMA table_info] guarantees about the key positions of one
    table: they are numbered from 1, so a table with a key column has a
    column at position 1. *)
Definition key_positions_from_one (columns : list column_info) : Prop :=
  (exists col, In col columns /\ is_pk col <> 0) ->
  exists col, In col columns /\ is_pk col = 1.

Definition has_company_id_column (columns : list column_info) : Prop :=
  exists col, In col columns /\ col_name col = "company_id".

(** The columns of a table whose [PRAGMA table_info] succeeds. *)
Definition columns_of (db : database) (table : string) : list column_info :=
  match table_info db table with
  | Some columns => columns
  | None => []
  end.

(** The statements and blocks a table list produces, in order. *)
Definition schema_statements (db : database) (tables : list string) : list string :=
  map (fun t => create_table_sql t (columns_of db t)) tables.

Definition import_statements (project_root : string) (db : database)
    (tables : list string) : list string :=
  flat_map (fun t => import_block t (columns_of db t) (csv_path_of project_root t)) tables.

(** [YYYY-MM-DD]. *)
Definition date_text (y mo d : Z) : string :=
  pad 4 y ++ "-" ++ pad 2 mo ++ "-" ++ pad 2 d.

(** [HH:MM:SS]. *)
Definition time_text (h mi s : Z) : string :=
  pad 2 h ++ ":" ++ pad 2 mi ++ ":" ++ pad 2 s.

(** An offset [fromisoformat] can give a zone: inside one day, and zero or at
    least one second away from UTC. *)
Definition valid_offset (off : Z) : Prop :=
  - MAXOFFSET <= off <= MAXOFFSET /\ (off = 0 \/ 1000000 <= Z.abs off).

Definition valid_zone (tz : option Z) : Prop :=
  match tz with
  | Some off => valid_offset off
  | None => True
  end.

(** A value the [datetime] constructor accepts, with a zone [fromisoformat]
    can build. *)
Definition valid_datetime (dt : datetime) : Prop :=
  check_fields dt = true /\ valid_zone (tzinfo dt).

(** [/c1/c2/.../cn]. *)
Fixpoint rooted (components : list string) : string :=
  match components with
  | [] => EmptyString
  | c :: t => "/" ++ c ++ rooted t
  end.

(** The absolute path with the given components, [/] when there is none. *)
Definition absolute_path (components : list string) : string :=
  match components with
  | [] => "/"
  | _ => rooted components
  end.

(** A path component: not empty and free of slashes. *)
Definition component (c : string) : Prop := c <> "" /\ find_char "/" c = None.

(** The zone designators of an ISO 8601 timestamp: none, [Z], or [±HH:MM]. *)
Inductive iso_zone : Type :=
| NoZone
| Zulu
| Offset (negative : bool) (hours minutes : Z).

Definition iso_zone_text (z : iso_zone) : string :=
  match z with
  | NoZone => ""
  | Zulu => "Z"
  | Offset negative h m => (if negative then "-" else "+") ++ pad 2 h ++ ":" ++ pad 2 m
  end.

(** The UTC offset a zone designator stands for, in microseconds. *)
Definition iso_zone_offset (z : iso_zone) : option Z :=
  match z with
  | NoZone => None
  | Zulu => Some 0
  | Offset negative h m =>
      let td := (h * 60 + m) * 60000000 in
      Some (if negative then - td else td)
  end.

Definition iso_zone_in_range (z : iso_zone) : Prop :=
  match z with
  | Offset _ h m => 0 <= h <= 23 /\ 0 <= m <= 59
  | _ => True
  end.


(** [YYYY-MM-DD], [T] or a space, [HH:MM:SS], and the zone. *)
Definition isoformat_text (y mo d : Z) (space : bool) (h mi s : Z) (z : iso_zone)
  : string :=
  date_text y mo d ++ (if space then " " else "T") ++ time_text h mi s ++ iso_zone_text z.

(** [m] raises. *)
Definition raises {A : Type} (m : outcome A) : Prop := exists e, m = Raise e.

(** The cells cleaned to make [cleaned_row]: those of [row] that have a
    column name, each under the rule of its column. *)
Definition cleaned_cells (yf : year_format) (column_names : list string)
    (row cleaned_row : list value) : Prop :=
  Forall2 (fun cell v' => clean_cell yf (fst cell) (snd cell) = Return v')
    (combine column_names row) cleaned_row.

(** A cell of an exported table that [clean_integer] cannot clean: it sits in
    a column under the integer rule and makes [clean_integer] raise. *)
Definition overflowing_cell (db : database) : Prop :=
  exists table columns rows row j name v,
    In table (list_tables db)
    /\ table_info db table = Some columns
    /\ select_all db table = Some rows
    /\ In row rows
    /\ nth_error (map col_name columns) j = Some name
    /\ nth_error row j = Some v
    /\ rule_for name = IntegerRule
    /\ clean_integer v = Raise OverflowError.

(** The file written for one table. *)
Definition exported_file_of (yf : year_format) (project_root : string) (db : database)
    (table : string) (file : csv_file) : Prop :=
  exists columns rows,
    table_info db table = Some columns
    /\ select_all db table = Some rows
    /\ csv_path file = csv_path_of project_root table
    /\ csv_header file = map col_name columns
    /\ clean_rows yf (csv_header file) rows = Return (csv_rows file).

(** What the schema file ends with. *)
Definition foreign_key_section : string :=
  "-- Foreign Key Constraints" ++ nl
  ++ String.concat "" (map foreign_key_sql DEPENDENT_TABLES).

(** The pruning statement of the load script for a table, written out. *)
Definition pruning_delete (table : string) : string :=
  nl ++ "            DELETE FROM staging_" ++ table
  ++ nl ++ "            WHERE company_id IS NOT NULL"
  ++ nl ++ "            AND company_id NOT IN (SELECT company_id FROM companies);"
  ++ nl ++ "            ".

(** A statement that deletes rows: after leading white space it begins with
    [DELETE FROM]. *)
Definition is_delete_statement (stmt : string) : bool :=
  prefix "DELETE FROM" (lstrip stmt).

(** [x in s]: the text [x] occurs in [s]. *)
Definition occurs_in (x s : string) : Prop := exists pre post, s = pre ++ x ++ post.

(** The files of a run that processed the tables [processed] in this order:
    one CSV file per table, the schema file with one [CREATE TABLE]
    statement per table between the header line and the closing section, and
    the load script with one block per table. *)
Definition processed_in_order (yf : year_format) (now : datetime) (root : string)
    (db : database) (a : artifacts) (processed : list string) : Prop :=
  map csv_path (exported a) = map (csv_path_of root) processed
  /\ schema_file a
     = "-- PostgreSQL Schema Generated on " ++ strftime_seconds yf now ++ nl ++ nl
       ++ join (nl ++ nl) (map (fun t => create_table_sql t (columns_of db t)) processed)
       ++ nl ++ nl ++ foreign_key_section
  /\ import_file a
     = join nl
         (flat_map (fun t => import_block t (columns_of db t) (csv_path_of root t))
            processed).

(** The statement that loads the exported file of a table into its staging
    table. *)
Definition copy_sql (table csv_path : string) : string :=
  "\COPY staging_" ++ table ++ " FROM '" ++ csv_path
  ++ "' WITH (FORMAT csv, HEADER true, NULL '');".

(** * Properties *)

(** ** Text *)

Lemma append_length a b :
  String.length (a ++ b) = (String.length a + String.length b)%nat.
Proof. induction a as [ | c t IH]; simpl; [ | rewrite IH]; reflexivity. Qed.

Lemma append_assoc s1 s2 s3 : (s1 ++ s2) ++ s3 = s1 ++ (s2 ++ s3).
Proof. induction s1 as [ | c t IH]; simpl; [ | rewrite IH]; reflexivity. Qed.

Lemma append_empty_r s : s ++ "" = s.
Proof. induction s as [ | c t IH]; simpl; [ | rewrite IH]; reflexivity. Qed.

(** ** Exceptions that can leave the parsers *)

Lemma only_ValueError_Return {A : Type} (a : A) : only_ValueError (Return a).
Proof. intros e H. discriminate H. Qed.

Lemma only_ValueError_Raise {A : Type} : only_ValueError (@Raise A ValueError).
Proof. intros e H. injection H as <-. reflexivity. Qed.

Lemma only_ValueError_bind {A B : Type} (m : outcome A) (k : A -> outcome B) :
  only_ValueError m -> (forall a, only_ValueError (k a)) ->
  only_ValueError (bind m k).
Proof.
  intros Hm Hk e. destruct m as [a | e']; simpl.
  - apply Hk.
  - intros H. injection H as <-. apply Hm. reflexivity.
Qed.

(** Walks through binds, conditionals and matches of a parser body. *)
Ltac only_value_error :=
  repeat first
    [ apply only_ValueError_Return
    | apply only_ValueError_Raise
    | apply only_ValueError_bind; [ | intros ]
    | progress cbv zeta
    | match goal with
      | |- only_ValueError (if ?b then _ else _) => destruct b
      | |- only_ValueError (match ?x with _ => _ end) => destruct x
      | |- only_ValueError (let (_, _) := ?x in _) => destruct x
      end ].

Lemma isoweek_to_gregorian_only_ValueError y w d :
  only_ValueError (isoweek_to_gregorian y w d).
Proof. unfold isoweek_to_gregorian. only_value_error. Qed.

Lemma find_separator_only_ValueError s :
  only_ValueError (find_isoformat_datetime_separator s).
Proof. unfold find_isoformat_datetime_separator. only_value_error. Qed.

Lemma parse_isoformat_date_only_ValueError s len :
  only_ValueError (parse_isoformat_date s len).
Proof.
  unfold parse_isoformat_date.
  only_value_error; auto using isoweek_to_gregorian_only_ValueError.
Qed.

Lemma parse_fraction_only_ValueError p len : only_ValueError (parse_fraction p len).
Proof. unfold parse_fraction. only_value_error. Qed.

Lemma parse_field_only_ValueError first sep p len :
  only_ValueError (parse_field first sep p len).
Proof. unfold parse_field. only_value_error. Qed.

Lemma parse_hh_mm_ss_ff_only_ValueError s len : only_ValueError (parse_hh_mm_ss_ff s len).
Proof.
  unfold parse_hh_mm_ss_ff.
  only_value_error;
    auto using parse_field_only_ValueError, parse_fraction_only_ValueError.
Qed.

Lemma timezone_of_only_ValueError neg h m s u : only_ValueError (timezone_of neg h m s u).
Proof. unfold timezone_of. only_value_error. Qed.

Lemma parse_isoformat_time_only_ValueError s : only_ValueError (parse_isoformat_time s).
Proof.
  unfold parse_isoformat_time.
  only_value_error;
    auto using parse_hh_mm_ss_ff_only_ValueError, timezone_of_only_ValueError,
      parse_field_only_ValueError, parse_fraction_only_ValueError.
Qed.

Lemma new_datetime_only_ValueError y mo d h mi s us tz :
  only_ValueError (new_datetime y mo d h mi s us tz).
Proof. unfold new_datetime. only_value_error. Qed.

Lemma fromisoformat_only_ValueError s : only_ValueError (fromisoformat s).
Proof.
  unfold fromisoformat.
  only_value_error;
    auto using find_separator_only_ValueError, parse_isoformat_date_only_ValueError,
      parse_isoformat_time_only_ValueError, new_datetime_only_ValueError,
      parse_field_only_ValueError, parse_fraction_only_ValueError,
      timezone_of_only_ValueError, isoweek_to_gregorian_only_ValueError.
Qed.

(** [clean_timestamp] always returns: the one exception its parser can raise
    is caught. *)
Lemma clean_timestamp_returns yf v : exists r, clean_timestamp yf v = Return r.
Proof.
  destruct v as [ | n | f | s | b | ]; simpl; eauto.
  destruct s as [ | c t]; eauto.
  pose proof (fromisoformat_only_ValueError (iso_text (String c t))) as Hve.
  destruct (fromisoformat (iso_text (String c t))) as [dt | e]; simpl; eauto.
  rewrite (Hve e eq_refl). simpl. eauto.
Qed.

(** ** Integer cleaning *)

(** The handler of [clean_integer] names [ValueError] and [TypeError]; the
    one exception left to escape is [OverflowError]. *)
Lemma float_of_string_raises s e : float_of_string s = Raise e -> e = ValueError.
Proof.
  unfold float_of_string. intros H.
  repeat match type of H with
    | match ?x with _ => _ end = _ => destruct x
    | (let (_, _) := ?x in _) = _ => destruct x
    | (if ?b then _ else _) = _ => destruct b
    end;
    try discriminate H; injection H as <-; reflexivity.
Qed.

Lemma py_float_raises v e :
  py_float v = Raise e -> e = ValueError \/ e = TypeError \/ e = OverflowError.
Proof.
  destruct v as [ | n | f | s | b | ]; cbn [py_float]; intros H.
  - injection H as <-. auto.
  - unfold float_of_int in H.
    destruct (binary_normalize prec emax n 0 false); try discriminate H.
    injection H as <-. auto.
  - discriminate H.
  - left. exact (float_of_string_raises s e H).
  - left. exact (float_of_string_raises b e H).
  - injection H as <-. auto.
Qed.

Lemma py_int_raises f e : py_int f = Raise e -> e = ValueError \/ e = OverflowError.
Proof.
  destruct f; cbn [py_int]; intros H; try discriminate H; injection H as <-; auto.
Qed.

Lemma clean_integer_raises_only_OverflowError v e :
  clean_integer v = Raise e -> e = OverflowError.
Proof.
  assert (Hbody : forall body : outcome value,
             (forall e', body = Raise e' ->
                         e' = ValueError \/ e' = TypeError \/ e' = OverflowError) ->
             except_Value_Type body VNone = Raise e -> e = OverflowError).
  { intros [a | e'] Hraise H; [discriminate H | ].
    destruct (Hraise e' eq_refl) as [-> | [-> | ->]]; try discriminate H.
    injection H as <-. reflexivity. }
  unfold clean_integer. destruct v; try discriminate; apply Hbody; intros e' H.
  all: destruct (py_float _) as [f0 | e0] eqn:Ef; cbn [bind] in H;
    [ destruct (py_int f0) as [val | e1] eqn:Ei; cbn [bind] in H;
      [ discriminate H
      | injection H as <-; destruct (py_int_raises _ _ Ei) as [-> | ->]; auto ]
    | injection H as <-; exact (py_float_raises _ _ Ef) ].
Qed.

(** [clean_integer] raises exactly when [float(value)] overflows or is an
    infinity. *)
Lemma clean_integer_raises_iff v :
  (exists e, clean_integer v = Raise e) <->
  py_float v = Raise OverflowError \/ exists s, py_float v = Return (S754_infinity s).
Proof.
  unfold clean_integer. split.
  - intros [e H].
    destruct v; try discriminate H;
      (destruct (py_float _) as [fl | e0] eqn:Ef; cbn [bind] in H;
       [ destruct fl as [ | sg | | sg m ex]; try discriminate H;
         right; exists sg; reflexivity
       | destruct (py_float_raises _ _ Ef) as [-> | [-> | ->]];
         try discriminate H; left; reflexivity ]).
  - intros [H | [sg H]].
    + destruct v; try discriminate H; rewrite H; exists OverflowError; reflexivity.
    + destruct v; try discriminate H; rewrite H; exists OverflowError; reflexivity.
Qed.

(** A value whose integer coercion succeeds outside the signed 64-bit range
    is cleaned to [None]. *)
Lemma clean_integer_out_of_range v f val :
  py_float v = Return f -> py_int f = Return val ->
  val < - 2 ^ 63 \/ 2 ^ 63 - 1 < val ->
  clean_integer v = Return VNone.
Proof.
  intros Hf Hi Hr.
  assert (Hb : (- 2 ^ 63 <=? val) && (val <=? 2 ^ 63 - 1) = false).
  { apply andb_false_iff. destruct Hr; [left | right]; apply Z.leb_gt; assumption. }
  unfold clean_integer.
  destruct v; try discriminate Hf;
    rewrite Hf; cbn [bind]; rewrite Hi; cbn [bind]; rewrite Hb; reflexivity.
Qed.

(** C2. Cleaning is meant never to raise.  [clean_timestamp] returns on
    every input, but [clean_integer] lets the [OverflowError] of
    [int(float('1e400'))] escape its handler. *)
Theorem clean_integer_overflow_escapes :
  (forall yf v, exists r, clean_timestamp yf v = Return r)
  /\ clean_integer (VStr "1e400") = Raise OverflowError.
Proof.
  split.
  - apply clean_timestamp_returns.
  - vm_compute. reflexivity.
Qed.

(** C3. [clean_integer] on the inputs the specification lists: "42" gives
    42, "abc" and [None] give [None], and "1e400" raises instead of giving
    [None]. *)
Theorem clean_integer_listed_inputs :
  clean_integer (VStr "42") = Return (VInt 42)
  /\ clean_integer (VStr "abc") = Return VNone
  /\ clean_integer VNone = Return VNone
  /\ clean_integer (VStr "1e400") = Raise OverflowError.
Proof. repeat split; vm_compute; reflexivity. Qed.

(** ** Cleaning dispatch *)

(** C10. A column whose name ends with [_updated] or [_date] and also
    contains [id] or [shares] gets the timestamp rule: the cell is cleaned by
    [clean_timestamp], and the integer rule is not selected. *)
Theorem timestamp_rule_takes_precedence (yf : year_format) (name : string) (v : value) :
  endswith name "_updated" = true \/ endswith name "_date" = true ->
  contains "id" name = true \/ contains "shares" name = true ->
  rule_for name = TimestampRule /\ clean_cell yf name v = clean_timestamp yf v.
Proof.
  intros Hsuffix _.
  assert (Hrule : rule_for name = TimestampRule).
  { unfold rule_for. destruct Hsuffix as [-> | ->].
    - reflexivity.
    - rewrite orb_true_r. reflexivity. }
  split; [exact Hrule | ].
  unfold clean_cell. rewrite Hrule. reflexivity.
Qed.

Lemma timestamp_rule_takes_precedence_witness :
  rule_for "company_id_updated" = TimestampRule
  /\ clean_cell BareYear "company_id_updated" (VStr "42")
     = clean_timestamp BareYear (VStr "42").
Proof.
  apply (timestamp_rule_takes_precedence BareYear "company_id_updated" (VStr "42")).
  - left. reflexivity.
  - left. reflexivity.
Defined.

(** ** Type mapping *)

Lemma upper_char_idempotent c : upper_char (upper_char c) = upper_char c.
Proof.
  destruct c as [[] [] [] [] [] [] [] []]; reflexivity.
Qed.

Lemma upper_idempotent s : upper (upper s) = upper s.
Proof.
  unfold upper. induction s as [ | c t IH]; simpl.
  - reflexivity.
  - rewrite IH, upper_char_idempotent. reflexivity.
Qed.

(** The mapping does not tell a type from its upper-case spelling. *)
Lemma map_sqlite_to_postgres_upper sqlite_type is_pk :
  map_sqlite_to_postgres (upper sqlite_type) is_pk
  = map_sqlite_to_postgres sqlite_type is_pk.
Proof. unfold map_sqlite_to_postgres. rewrite upper_idempotent. reflexivity. Qed.

Lemma dict_get_cons k v rest key fallback :
  dict_get ((k, v) :: rest) key fallback
  = if String.eqb k key then v else dict_get rest key fallback.
Proof. reflexivity. Qed.

(** C5, as stated, fails: both members of a composite key of two INTEGER
    columns are mapped to BIGSERIAL, though neither is the sole key column. *)
Lemma composite_key_member_is_bigserial :
  let a := mk_column "a" "INTEGER" 1 None 1 in
  let b := mk_column "b" "INTEGER" 1 None 2 in
  primary_key_columns [a; b] = [a; b]
  /\ map_sqlite_to_postgres (col_type a) (is_pk a) = "BIGSERIAL"
  /\ map_sqlite_to_postgres (col_type b) (is_pk b) = "BIGSERIAL".
Proof. repeat split. Qed.

(** C5, amended. An INTEGER column is mapped to BIGSERIAL exactly when its
    primary-key flag is set, whether it is the whole key or one member of
    it, and to BIGINT otherwise; the mapping looks only at the upper-cased
    type, and a type that is none of INTEGER, REAL and DATETIME is mapped to
    TEXT. *)
Theorem map_sqlite_to_postgres_spec (sqlite_type other : string) (is_pk : Z) :
  (upper sqlite_type = "INTEGER" ->
   map_sqlite_to_postgres sqlite_type is_pk = (if is_pk =? 0 then "BIGINT" else "BIGSERIAL"))
  /\ (upper sqlite_type = upper other ->
      map_sqlite_to_postgres sqlite_type is_pk = map_sqlite_to_postgres other is_pk)
  /\ (upper sqlite_type <> "INTEGER" -> upper sqlite_type <> "REAL" ->
      upper sqlite_type <> "DATETIME" ->
      map_sqlite_to_postgres sqlite_type is_pk = "TEXT").
Proof.
  unfold map_sqlite_to_postgres. repeat split.
  - intros ->. unfold type_map, truthy. destruct (is_pk =? 0); reflexivity.
  - intros ->. reflexivity.
  - intros H1 H2 H3. unfold type_map. rewrite !dict_get_cons.
    apply String.eqb_neq in H1, H2, H3.
    rewrite (String.eqb_sym "INTEGER"), H1.
    rewrite (String.eqb_sym "REAL"), H2.
    rewrite (String.eqb_sym "DATETIME"), H3.
    destruct (String.eqb "TEXT" (upper sqlite_type));
      destruct (String.eqb "" (upper sqlite_type)); reflexivity.
Qed.

Lemma map_sqlite_to_postgres_spec_witness :
  map_sqlite_to_postgres "integer" 1 = "BIGSERIAL"
  /\ map_sqlite_to_postgres "Integer" 0 = map_sqlite_to_postgres "INTEGER" 0
  /\ map_sqlite_to_postgres "varchar(10)" 0 = "TEXT".
Proof.
  split; [ | split].
  - apply (proj1 (map_sqlite_to_postgres_spec "integer" "" 1)). reflexivity.
  - apply (proj1 (proj2 (map_sqlite_to_postgres_spec "Integer" "INTEGER" 0))). reflexivity.
  - apply (proj2 (proj2 (map_sqlite_to_postgres_spec "varchar(10)" "" 0)));
      intros H; discriminate H.
Defined.

(** ** Processing order *)

Lemma existsb_eqb_In x l : existsb (String.eqb x) l = true <-> In x l.
Proof.
  rewrite existsb_exists. split.
  - intros [y [Hin Heq]]. apply String.eqb_eq in Heq. subst y. exact Hin.
  - intros Hin. exists x. split; [exact Hin | apply String.eqb_refl].
Qed.

(** [remove] takes out the first occurrence and leaves the rest in place. *)
Lemma remove_first_split x l :
  In x l ->
  exists before after,
    l = (before ++ x :: after)%list /\ ~ In x before
    /\ remove_first x l = (before ++ after)%list.
Proof.
  induction l as [ | y t IH]; intros Hin.
  - destruct Hin.
  - simpl. destruct (String.eqb y x) eqn:E.
    + apply String.eqb_eq in E. subst y.
      exists [], t. repeat split. intros [].
    + apply String.eqb_neq in E.
      destruct Hin as [-> | Hin]; [contradiction E; reflexivity | ].
      destruct (IH Hin) as (before & after & -> & Hnot & ->).
      exists (y :: before), after. repeat split.
      intros [-> | H]; [apply E; reflexivity | exact (Hnot H)].
Qed.

Lemma move_companies_first_present tables :
  In "companies" tables ->
  exists before after,
    tables = (before ++ "companies" :: after)%list
    /\ ~ In "companies" before
    /\ move_companies_first tables = ("companies" :: before ++ after)%list.
Proof.
  intros Hin. unfold move_companies_first.
  rewrite (proj2 (existsb_eqb_In "companies" tables) Hin).
  destruct (remove_first_split "companies" tables Hin) as (before & after & H1 & H2 & H3).
  exists before, after. rewrite H3. auto.
Qed.

Lemma move_companies_first_absent tables :
  ~ In "companies" tables -> move_companies_first tables = tables.
Proof.
  intros Hnot. unfold move_companies_first.
  destruct (existsb (String.eqb "companies") tables) eqn:E; [ | reflexivity].
  apply existsb_eqb_In in E. contradiction.
Qed.

(** A turn of the table loop that returns has read the columns and the rows
    of the table, cleaned the rows, and added one file, one statement and one
    block. *)
Lemma export_table_returns yf root db st table st' :
  export_table yf root db st table = Return st' ->
  exists columns rows cleaned_rows,
    table_info db table = Some columns
    /\ select_all db table = Some rows
    /\ clean_rows yf (map col_name columns) rows = Return cleaned_rows
    /\ st' = mk_state
               (csv_files st
                ++ [mk_csv (csv_path_of root table) (map col_name columns) cleaned_rows])
               (schema_sql st ++ [create_table_sql table columns])
               (import_sql st ++ import_block table columns (csv_path_of root table)).
Proof.
  unfold export_table. intros H.
  destruct (table_info db table) as [columns | ]; cbn [fetchall bind] in H;
    [ | discriminate H].
  destruct (select_all db table) as [rows | ]; cbn [fetchall bind] in H;
    [ | discriminate H].
  destruct (clean_rows yf (map col_name columns) rows) as [cleaned_rows | e] eqn:E;
    cbn [bind] in H; [ | discriminate H].
  injection H as <-. exists columns, rows, cleaned_rows. auto.
Qed.

(** The accumulators grow by one file, one statement and one block per
    table, in the order of the table list. *)
Lemma export_tables_accumulates yf root db tables : forall st st',
  export_tables yf root db st tables = Return st' ->
  map csv_path (csv_files st')
  = (map csv_path (csv_files st) ++ map (csv_path_of root) tables)%list
  /\ schema_sql st' = (schema_sql st ++ schema_statements db tables)%list
  /\ import_sql st' = (import_sql st ++ import_statements root db tables)%list.
Proof.
  induction tables as [ | t rest IH]; intros st st' H; cbn [export_tables] in H.
  - injection H as <-. cbn. rewrite !app_nil_r. auto.
  - destruct (export_table yf root db st t) as [st1 | e] eqn:E; cbn [bind] in H;
      [ | discriminate H].
    apply export_table_returns in E.
    destruct E as (columns & rows & cleaned_rows & Hcols & _ & _ & ->).
    apply IH in H. cbn [csv_files schema_sql import_sql] in H.
    destruct H as (Hf & Hs & Hi).
    rewrite Hf, Hs, Hi. unfold schema_statements, import_statements, columns_of.
    cbn [map flat_map]. rewrite Hcols, map_app. cbn [map csv_path].
    rewrite <- !app_assoc. repeat split; reflexivity.
Qed.

Lemma run_artifacts yf now root db a :
  run yf now root db = Return a ->
  schema_file a = schema_text yf now (schema_statements db (list_tables db))
  /\ import_file a = import_text (import_statements root db (list_tables db)).
Proof.
  unfold run. intros H.
  destruct (export_tables yf root db initial_state (list_tables db)) as [st | e] eqn:E;
    simpl in H; [ | discriminate H].
  injection H as <-. simpl.
  apply export_tables_accumulates in E. simpl in E. destruct E as (_ & -> & ->). auto.
Qed.

(** The files of a finished run, written out. *)
Lemma run_processed_in_order yf now root db a :
  run yf now root db = Return a ->
  processed_in_order yf now root db a (list_tables db).
Proof.
  unfold run. intros H.
  destruct (export_tables yf root db initial_state (list_tables db)) as [st | e] eqn:E;
    cbn [bind] in H; [ | discriminate H].
  injection H as <-. apply export_tables_accumulates in E.
  cbn [initial_state csv_files schema_sql import_sql map app] in E.
  destruct E as (Hf & Hs & Hi).
  unfold processed_in_order. cbn [exported schema_file import_file].
  rewrite Hf, Hs, Hi. repeat split.
  unfold schema_text, schema_header, schema_body, schema_statements, foreign_key_section.
  rewrite !append_assoc. reflexivity.
Qed.

Lemma join_begins sep x l : exists rest, join sep (x :: l) = x ++ rest.
Proof.
  destruct l as [ | y l].
  - exists "". cbn [join]. symmetry. apply append_empty_r.
  - exists (sep ++ join sep (y :: l)). reflexivity.
Qed.

(** The statement of [companies] opens with its [CREATE TABLE] line. *)
Lemma create_companies_begins columns :
  exists rest,
    create_table_sql "companies" columns = "CREATE TABLE IF NOT EXISTS companies (" ++ rest.
Proof.
  unfold create_table_sql, table_sql.
  change ("CREATE TABLE IF NOT EXISTS " ++ "companies" ++ " (")
    with "CREATE TABLE IF NOT EXISTS companies (".
  destruct (pk_columns_of columns) as [ | k ks].
  - destruct columns as [ | col cols].
    + exists (nl ++ ");"). reflexivity.
    + cbn [map]. destruct (map column_sql cols); apply join_begins.
  - apply join_begins.
Qed.

(** C6. The tables are processed in the order of [sqlite_master] without
    [sqlite_sequence], except that [companies], when it is among them, is
    taken out of its place and processed first: the exported files, the
    [CREATE TABLE] statements of the schema file and the blocks of the load
    script of a finished run follow that order.  With [companies] present
    the schema file therefore opens, after its header line, with
    [CREATE TABLE IF NOT EXISTS companies (], and the load script opens with
    the staging table of [companies]; with [companies] absent the order is
    that of [sqlite_master]. *)
Theorem companies_processed_first (yf : year_format) (now : datetime) (root : string)
    (db : database) (a : artifacts) :
  run yf now root db = Return a ->
  let tables :=
    filter (fun t => negb (String.eqb t "sqlite_sequence")) (sqlite_master db) in
  (In "companies" tables ->
   exists before after,
     tables = (before ++ "companies" :: after)%list
     /\ ~ In "companies" before
     /\ processed_in_order yf now root db a ("companies" :: before ++ after)
     /\ (exists rest,
           schema_file a
           = "-- PostgreSQL Schema Generated on " ++ strftime_seconds yf now ++ nl ++ nl
             ++ "CREATE TABLE IF NOT EXISTS companies (" ++ rest)
     /\ (exists rest,
           import_file a
           = "CREATE TABLE IF NOT EXISTS staging_companies (LIKE companies);" ++ rest))
  /\ (~ In "companies" tables -> processed_in_order yf now root db a tables).
Proof.
  intros Hrun tables.
  pose proof (run_processed_in_order yf now root db a Hrun) as Hall.
  unfold list_tables in Hall. fold tables in Hall. split.
  - intros Hin.
    destruct (move_companies_first_present tables Hin) as (before & after & H1 & H2 & H3).
    rewrite H3 in Hall. exists before, after.
    split; [exact H1 | split; [exact H2 | split; [exact Hall | ]]].
    destruct Hall as (_ & Hschema & Himport). split.
    + rewrite Hschema. cbn [map].
      destruct (join_begins (nl ++ nl)
                  (create_table_sql "companies" (columns_of db "companies"))
                  (map (fun t => create_table_sql t (columns_of db t)) (before ++ after)))
        as [rest1 ->].
      destruct (create_companies_begins (columns_of db "companies")) as [rest2 ->].
      eexists. rewrite !append_assoc. reflexivity.
    + rewrite Himport. cbn [flat_map]. unfold import_block at 1.
      cbn [app]. apply join_begins.
  - intros Hnot. rewrite (move_companies_first_absent tables Hnot) in Hall. exact Hall.
Qed.

Lemma companies_processed_first_witness :
  let db :=
    mk_database ["financials"; "sqlite_sequence"; "companies"; "costs"]
      (fun _ => Some [mk_column "company_id" "INTEGER" 0 None 1])
      (fun _ => Some [[VStr "7"]]) in
  let now := mk_datetime 2024 7 27 20 20 0 0 None in
  exists a,
    run BareYear now "/srv/gold-silver-analysis-v2" db = Return a
    /\ exists before after,
         ["financials"; "companies"; "costs"] = (before ++ "companies" :: after)%list
         /\ ~ In "companies" before
         /\ processed_in_order BareYear now "/srv/gold-silver-analysis-v2" db a
              ("companies" :: before ++ after)
         /\ (exists rest,
               schema_file a
               = "-- PostgreSQL Schema Generated on " ++ "2024-07-27 20:20:00" ++ nl ++ nl
                 ++ "CREATE TABLE IF NOT EXISTS companies (" ++ rest)
         /\ (exists rest,
               import_file a
               = "CREATE TABLE IF NOT EXISTS staging_companies (LIKE companies);" ++ rest).
Proof.
  intros db now. eexists. split; [vm_compute; reflexivity | ].
  apply (proj1 (companies_processed_first BareYear now "/srv/gold-silver-analysis-v2" db _
                  ltac:(vm_compute; reflexivity))).
  right. left. reflexivity.
Defined.

(** ** Load script: referential pruning *)

Lemma has_company_id_existsb columns :
  existsb (fun col => String.eqb (col_name col) "company_id") columns = true
  <-> has_company_id_column columns.
Proof.
  rewrite existsb_exists. unfold has_company_id_column.
  split; intros [col [Hin H]]; exists col; split; auto.
  - apply String.eqb_eq. exact H.
  - apply String.eqb_eq. exact H.
Qed.

Lemma filter_nonempty {A : Type} (f : A -> bool) (l : list A) :
  filter f l <> [] <-> exists x, In x l /\ f x = true.
Proof.
  split.
  - intros H. destruct (filter f l) as [ | x t] eqn:E; [contradiction H; reflexivity | ].
    exists x. apply filter_In. rewrite E. left. reflexivity.
  - intros [x Hx] E. apply filter_In in Hx. rewrite E in Hx. destruct Hx.
Qed.

Lemma primary_key_columns_nonempty columns :
  primary_key_columns columns <> [] <-> exists col, In col columns /\ is_pk col <> 0.
Proof.
  unfold primary_key_columns, truthy. rewrite filter_nonempty.
  split; intros [col [Hin H]]; exists col; split; try exact Hin.
  - apply negb_true_iff, Z.eqb_neq in H. exact H.
  - apply negb_true_iff, Z.eqb_neq. exact H.
Qed.

Lemma pk_columns_of_nonempty columns :
  pk_columns_of columns <> [] <-> exists col, In col columns /\ is_pk col = 1.
Proof.
  unfold pk_columns_of.
  assert (Hmap : forall l : list column_info, map col_name l <> [] <-> l <> []).
  { intros [ | x t]; simpl; split; intros H; try discriminate;
      contradiction H; reflexivity. }
  rewrite Hmap, filter_nonempty.
  split; intros [col [Hin H]]; exists col; split; try exact Hin.
  - apply Z.eqb_eq. exact H.
  - apply Z.eqb_eq. exact H.
Qed.

(** The pruning statement differs from every other statement of a block. *)
Lemma delete_orphans_sql_not_upsert table table' columns :
  delete_orphans_sql table <> upsert_sql table' columns.
Proof. unfold delete_orphans_sql, upsert_sql, nl. simpl. intros H. discriminate H. Qed.

Lemma delete_orphans_sql_in_block table columns path :
  In (delete_orphans_sql table) (import_block table columns path) <->
  pk_columns_of columns <> []
  /\ negb (String.eqb table "companies")
     && existsb (fun col => String.eqb (col_name col) "company_id") columns = true.
Proof.
  unfold import_block.
  destruct (pk_columns_of columns) as [ | k ks] eqn:Hpk.
  - split.
    + intros H. cbn [app In] in H.
      destruct H as [H | [H | [H | [H | [H | []]]]]];
        unfold delete_orphans_sql, insert_all_sql, nl in H; simpl in H; discriminate H.
    + intros [H _]. contradiction H. reflexivity.
  - destruct (negb (String.eqb table "companies")
              && existsb (fun col => String.eqb (col_name col) "company_id") columns).
    + split; [intros _; split; [discriminate | reflexivity] | ].
      intros _. cbn [app In]. do 3 right. left. reflexivity.
    + split; [ | intros [_ H]; discriminate H].
      intros H. cbn [app In] in H.
      destruct H as [H | [H | [H | [H | [H | []]]]]].
      4: symmetry in H; apply delete_orphans_sql_not_upsert in H; destruct H.
      all: unfold delete_orphans_sql, nl in H; simpl in H; discriminate H.
Qed.

(** No other statement of a block deletes rows. *)
Lemma delete_statement_in_block table columns path stmt :
  In stmt (import_block table columns path) -> is_delete_statement stmt = true ->
  stmt = delete_orphans_sql table.
Proof.
  unfold import_block. intros Hin Hdel.
  assert (Hother : forall other,
             is_delete_statement other = false -> stmt = other -> False)
    by (intros other Hf ->; congruence).
  destruct (pk_columns_of columns) as [ | k ks];
    [ | destruct (negb (String.eqb table "companies")
                  && existsb (fun col => String.eqb (col_name col) "company_id") columns) ];
    cbn [app In] in Hin;
    repeat match goal with
      | H : _ \/ _ |- _ => destruct H as [H | H]
      | H : False |- _ => destruct H
      end;
    try (symmetry; assumption);
    exfalso; symmetry in Hin; revert Hin; apply Hother; reflexivity.
Qed.

Lemma pruning_delete_deletes table : is_delete_statement (pruning_delete table) = true.
Proof. reflexivity. Qed.

(** C8. The block of a table contains the pruning statement
    [DELETE FROM staging_<table> WHERE company_id IS NOT NULL AND company_id
    NOT IN (SELECT company_id FROM companies);] exactly when the table is not
    [companies], has a primary-key column and has a column named
    [company_id]; and exactly then the block contains a statement that
    deletes rows at all. *)
Theorem delete_emitted_iff (table : string) (columns : list column_info) (path : string) :
  key_positions_from_one columns ->
  (In (pruning_delete table) (import_block table columns path) <->
   table <> "companies" /\ primary_key_columns columns <> []
   /\ has_company_id_column columns)
  /\ ((exists stmt, In stmt (import_block table columns path)
                    /\ is_delete_statement stmt = true) <->
      table <> "companies" /\ primary_key_columns columns <> []
      /\ has_company_id_column columns).
Proof.
  intros Hwf.
  assert (Hiff : In (pruning_delete table) (import_block table columns path) <->
                 table <> "companies" /\ primary_key_columns columns <> []
                 /\ has_company_id_column columns).
  { change (pruning_delete table) with (delete_orphans_sql table).
    rewrite delete_orphans_sql_in_block, andb_true_iff, negb_true_iff.
    rewrite has_company_id_existsb, String.eqb_neq.
    rewrite pk_columns_of_nonempty, primary_key_columns_nonempty.
    split.
    - intros ([col [Hin Hpk]] & Ht & Hc). repeat split; try assumption.
      exists col. split; [exact Hin | lia].
    - intros (Ht & Hpk & Hc). auto. }
  split; [exact Hiff | ].
  rewrite <- Hiff. split.
  - intros (stmt & Hin & Hdel).
    rewrite (delete_statement_in_block table columns path stmt Hin Hdel) in Hin.
    exact Hin.
  - intros Hin. exists (pruning_delete table).
    split; [exact Hin | apply pruning_delete_deletes].
Qed.

Lemma delete_emitted_iff_witness :
  let columns :=
    [ mk_column "id" "INTEGER" 0 None 1;
      mk_column "company_id" "INTEGER" 0 None 0;
      mk_column "revenue" "REAL" 0 None 0 ] in
  In (pruning_delete "financials") (import_block "financials" columns "financials.csv")
  /\ exists stmt,
       In stmt (import_block "financials" columns "financials.csv")
       /\ is_delete_statement stmt = true.
Proof.
  intros columns.
  assert (Hcond : "financials" <> "companies" /\ primary_key_columns columns <> []
                  /\ has_company_id_column columns).
  { split; [discriminate | split; [discriminate | ]].
    exists (mk_column "company_id" "INTEGER" 0 None 0).
    split; [right; left | ]; reflexivity. }
  destruct (delete_emitted_iff "financials" columns "financials.csv"
              (fun _ => ex_intro _ (mk_column "id" "INTEGER" 0 None 1)
                          (conj (or_introl eq_refl) eq_refl)))
    as [Hexact Hany].
  split; [exact (proj2 Hexact Hcond) | exact (proj2 Hany Hcond)].
Defined.

(** ** Schema: primary-key clause *)

Lemma endswith_char_single c ch :
  endswith (String c "") (String ch "") = Ascii.eqb c ch.
Proof.
  unfold endswith. simpl. destruct (Ascii.eqb c ch); reflexivity.
Qed.

Lemma endswith_char_cons c c' t ch :
  endswith (String c (String c' t)) (String ch "")
  = endswith (String c' t) (String ch "").
Proof.
  unfold endswith. cbn [String.length Nat.leb Nat.sub andb].
  rewrite !Nat.sub_0_r. reflexivity.
Qed.

Lemma rstrip_char_no_trailing ch s : endswith (rstrip_char ch s) (String ch "") = false.
Proof.
  induction s as [ | c t IH]; [reflexivity | ].
  simpl. destruct (rstrip_char ch t) as [ | c' t'] eqn:E.
  - destruct (Ascii.eqb c ch) eqn:Ec; [reflexivity | ].
    rewrite endswith_char_single. exact Ec.
  - rewrite endswith_char_cons. exact IH.
Qed.

Lemma map_last_snoc {A : Type} (f : A -> A) (l : list A) (x : A) :
  map_last f (l ++ [x])%list = (l ++ [f x])%list.
Proof.
  induction l as [ | y t IH]; [reflexivity | ].
  cbn [app]. rewrite <- IH. destruct t; reflexivity.
Qed.

(** A table without a column at key position 1: the statement is the header
    and the column lines, closed by [);], with no constraint line, and the
    line before the closing parenthesis has its commas stripped. *)
Lemma table_sql_without_key table columns :
  pk_columns_of columns = [] ->
  exists lines last,
    ("CREATE TABLE IF NOT EXISTS " ++ table ++ " (") :: map column_sql columns
    = (lines ++ [last])%list
    /\ table_sql table columns = (lines ++ [rstrip_char "," last; ");"])%list
    /\ endswith (rstrip_char "," last) "," = false.
Proof.
  intros Hpk. unfold table_sql. rewrite Hpk.
  set (header := "CREATE TABLE IF NOT EXISTS " ++ table ++ " ("). clearbody header.
  destruct (@exists_last _ (header :: map column_sql columns)) as (lines & x & Hx);
    [discriminate | ].
  exists lines, x. rewrite Hx, map_last_snoc, <- app_assoc.
  repeat split. apply rstrip_char_no_trailing.
Qed.

(** C9. On a composite key the constraint names only the column at key
    position 1: for a table [t] keyed by [(a, b)] the statement ends with
    [PRIMARY KEY (a)], not [PRIMARY KEY (a, b)]. *)
Theorem composite_key_lists_first_column_only :
  table_sql "t"
    [ mk_column "a" "INTEGER" 1 None 1;
      mk_column "b" "INTEGER" 1 None 2;
      mk_column "c" "TEXT" 0 None 0 ]
  = [ "CREATE TABLE IF NOT EXISTS t (";
      "    a BIGSERIAL,";
      "    b BIGSERIAL,";
      "    c TEXT,";
      "    CONSTRAINT t_pkey PRIMARY KEY (a)";
      ");" ].
Proof. reflexivity. Qed.

(** ** Repeated runs *)

(** C1, as stated, fails: the first line of the schema file carries the time
    of the run, so two runs one second apart write different schema files
    from the same database. *)
Lemma schema_file_depends_on_clock :
  let db :=
    mk_database ["companies"]
      (fun _ => Some [mk_column "company_id" "INTEGER" 0 None 1]) (fun _ => Some []) in
  let first_run := mk_datetime 2024 7 27 20 20 0 0 None in
  let second_run := mk_datetime 2024 7 27 20 20 1 0 None in
  exists a1 a2,
    run FourDigitYear first_run "/srv/gold-silver-analysis-v2" db = Return a1
    /\ run FourDigitYear second_run "/srv/gold-silver-analysis-v2" db = Return a2
    /\ schema_file a1 <> schema_file a2.
Proof.
  intros db first_run second_run.
  destruct (run FourDigitYear first_run "/srv/gold-silver-analysis-v2" db)
    as [a1 | e1] eqn:E1;
    [ | vm_compute in E1; discriminate E1].
  destruct (run FourDigitYear second_run "/srv/gold-silver-analysis-v2" db)
    as [a2 | e2] eqn:E2;
    [ | vm_compute in E2; discriminate E2].
  exists a1, a2. repeat split.
  vm_compute in E1, E2. injection E1 as <-. injection E2 as <-.
  vm_compute. intros H. discriminate H.
Qed.

(** C1, amended. Two runs over the same database and project directory end
    the same way whatever the clock reads: both raise the same exception, or
    both finish with the same exported rows, byte-identical load scripts,
    and schema files that differ at most in their first line, the comment
    with the time of the run. *)
Theorem run_repeatable_up_to_clock (yf : year_format) (now1 now2 : datetime)
    (root : string) (db : database) :
  match run yf now1 root db, run yf now2 root db with
  | Return a1, Return a2 =>
      import_file a1 = import_file a2
      /\ exported a1 = exported a2
      /\ exists body,
           schema_file a1 = schema_header yf now1 ++ body
           /\ schema_file a2 = schema_header yf now2 ++ body
  | Raise e1, Raise e2 => e1 = e2
  | _, _ => False
  end.
Proof.
  unfold run.
  destruct (export_tables yf root db initial_state (list_tables db)) as [st | e];
    cbn [bind].
  - repeat split. exists (schema_body (schema_sql st)). split; reflexivity.
  - reflexivity.
Qed.

(** ** Timestamp cleaning: what is returned *)


(** ** Timestamp cleaning: printed digits *)

Lemma mod10_cases n :
  n mod 10 = 0 \/ n mod 10 = 1 \/ n mod 10 = 2 \/ n mod 10 = 3 \/ n mod 10 = 4
  \/ n mod 10 = 5 \/ n mod 10 = 6 \/ n mod 10 = 7 \/ n mod 10 = 8 \/ n mod 10 = 9.
Proof. pose proof (Z.mod_pos_bound n 10). lia. Qed.

Ltac by_digit n :=
  unfold dc;
  destruct (mod10_cases n) as [H | [H | [H | [H | [H | [H | [H | [H | [H | H]]]]]]]]];
  rewrite H.

Lemma is_digit_dc n : is_digit (dc n) = true.
Proof. by_digit n; reflexivity. Qed.

Lemma digit_val_dc n : digit_val (dc n) = n mod 10.
Proof. by_digit n; reflexivity. Qed.

Lemma dc_eqb_nondigit n c : is_digit c = false -> Ascii.eqb (dc n) c = false.
Proof.
  intros Hc. destruct (Ascii.eqb (dc n) c) eqn:E; [ | reflexivity].
  apply Ascii.eqb_eq in E. rewrite <- E, is_digit_dc in Hc. discriminate Hc.
Qed.

(** Rewrites the tests the parsers make on printed digits. *)
Ltac digits :=
  repeat first
    [ rewrite is_digit_dc
    | rewrite digit_val_dc
    | rewrite dc_eqb_nondigit by reflexivity ].

(** Runs a parser over text whose shape is known, leaving the tests on
    printed digits in place. *)
Ltac step :=
  cbn [pad append String.length String.get substring at_is find_char b2n
       nonempty all_digits digits_value bind andb orb negb Bool.eqb Ascii.eqb
       Nat.eqb Nat.ltb Nat.leb Nat.add Nat.sub Nat.min Nat.even fst snd].

(** Closes the arithmetic of reading printed digits back. *)
Ltac read_back := repeat f_equal; Z.to_euclidean_division_equations; lia.

Lemma substring_all s n : (String.length s <= n)%nat -> substring 0 n s = s.
Proof.
  revert n. induction s as [ | c t IH]; intros n H.
  - destruct n; reflexivity.
  - destruct n as [ | n]; [simpl in H; lia | ].
    simpl. rewrite IH; [reflexivity | simpl in H; lia].
Qed.

(** *** Reading back the date *)

(** The parsers at work on text whose shape is known. *)
Ltac run_parser :=
  cbn [parse_digits peek advance advance_by skip_digits find_tzinfo is_tz_char];
  step.

Lemma separator_after_date y mo d rest :
  find_isoformat_datetime_separator (date_text y mo d ++ rest) = Return 10%nat.
Proof.
  unfold date_text, find_isoformat_datetime_separator.
  step. digits. reflexivity.
Qed.

Lemma parse_date_text y mo d rest len :
  0 <= y < 10000 -> 0 <= mo < 100 -> 0 <= d < 100 ->
  parse_isoformat_date (date_text y mo d ++ rest) len = Return (y, mo, d).
Proof.
  intros Hy Hmo Hd. unfold date_text, parse_isoformat_date.
  repeat (run_parser; digits). read_back.
Qed.

(** An offset of hours and minutes, as [%z] prints it and as ISO 8601
    writes it. *)
Lemma parse_offset_hhmm h mi :
  0 <= h < 100 -> 0 <= mi < 100 ->
  parse_hh_mm_ss_ff (pad 2 h ++ pad 2 mi) 4 = Return (h, mi, 0, 0, false).
Proof.
  intros Hh Hmi. unfold parse_hh_mm_ss_ff, parse_field.
  repeat (run_parser; digits). read_back.
Qed.

Lemma parse_offset_hh_mm h mi :
  0 <= h < 100 -> 0 <= mi < 100 ->
  parse_hh_mm_ss_ff (pad 2 h ++ ":" ++ pad 2 mi) 5 = Return (h, mi, 0, 0, false).
Proof.
  intros Hh Hmi. unfold parse_hh_mm_ss_ff, parse_field.
  repeat (run_parser; digits). read_back.
Qed.

Section TimeText.

Variables h mi s : Z.
Hypothesis Hh : 0 <= h < 100.
Hypothesis Hmi : 0 <= mi < 100.
Hypothesis Hs : 0 <= s < 100.

(** The time, and whether something follows it. *)
Lemma parse_time_text rest :
  parse_hh_mm_ss_ff (time_text h mi s ++ rest) 8
  = Return (h, mi, s, 0, negb (Ascii.eqb (peek rest) NUL)).
Proof using Hh Hmi Hs.
  unfold time_text, parse_hh_mm_ss_ff, parse_field.
  repeat (run_parser; digits). read_back.
Qed.

(** The zone suffixes [%z] prints, without their sign. *)
Lemma parse_offset_hhmmss :
  parse_hh_mm_ss_ff (pad 2 h ++ pad 2 mi ++ pad 2 s) 6 = Return (h, mi, s, 0, false).
Proof using Hh Hmi Hs.
  unfold parse_hh_mm_ss_ff, parse_field.
  repeat (run_parser; digits). read_back.
Qed.

Lemma parse_offset_hhmmss_ffffff u :
  0 <= u < 1000000 ->
  parse_hh_mm_ss_ff (pad 2 h ++ pad 2 mi ++ pad 2 s ++ "." ++ pad 6 u) 13
  = Return (h, mi, s, u, false).
Proof using Hh Hmi Hs.
  intros Hu. unfold parse_hh_mm_ss_ff, parse_field, parse_fraction.
  repeat (run_parser; digits). read_back.
Qed.

End TimeText.

(** *** Reading back the time and the zone *)

Lemma is_tz_char_dc n : is_tz_char (dc n) = false.
Proof. unfold is_tz_char. digits. reflexivity. Qed.

Lemma find_tzinfo_time_text h mi s rest :
  find_tzinfo (time_text h mi s ++ rest) = (8 + find_tzinfo rest)%nat.
Proof.
  unfold time_text. step. cbn [find_tzinfo]. rewrite !is_tz_char_dc.
  change (is_tz_char ":") with false. reflexivity.
Qed.

Lemma advance_by_time_text h mi s rest :
  advance_by 8 (time_text h mi s ++ rest) = rest.
Proof. unfold time_text. step. reflexivity. Qed.

Lemma time_text_length h mi s rest :
  String.length (time_text h mi s ++ rest) = (8 + String.length rest)%nat.
Proof. unfold time_text. step. reflexivity. Qed.

Lemma parse_isoformat_time_naive h mi s :
  0 <= h < 100 -> 0 <= mi < 100 -> 0 <= s < 100 ->
  parse_isoformat_time (time_text h mi s) = Return (h, mi, s, 0, None).
Proof.
  intros Hh Hmi Hs. unfold parse_isoformat_time. cbv zeta.
  rewrite <- (append_empty_r (time_text h mi s)).
  rewrite find_tzinfo_time_text, time_text_length, (parse_time_text h mi s Hh Hmi Hs).
  reflexivity.
Qed.

(** After the time, a sign and an offset that parses to its end. *)
Lemma parse_isoformat_time_signed h mi s (negative : bool) ztext th tm ts tu :
  0 <= h < 100 -> 0 <= mi < 100 -> 0 <= s < 100 ->
  parse_hh_mm_ss_ff ztext (String.length ztext) = Return (th, tm, ts, tu, false) ->
  parse_isoformat_time (time_text h mi s ++ String (if negative then "-"%char else "+"%char) ztext)
  = (tz <- timezone_of negative th tm ts tu ;; Return (h, mi, s, 0, tz)).
Proof.
  intros Hh Hmi Hs Hz. unfold parse_isoformat_time. cbv zeta.
  rewrite find_tzinfo_time_text, time_text_length.
  destruct negative;
    cbn [find_tzinfo is_tz_char Ascii.eqb Bool.eqb orb andb Nat.add String.length];
    rewrite advance_by_time_text, (parse_time_text h mi s Hh Hmi Hs);
    cbn [peek advance];
    cbn [bind Nat.eqb Nat.sub Ascii.eqb Bool.eqb andb];
    rewrite Nat.sub_0_r, Hz; reflexivity.
Qed.

(** *** Reading back the zone *)

Lemma timezone_of_offset off u :
  valid_offset off ->
  u = Z.abs off mod 1000000 ->
  let o := Z.abs off in
  timezone_of (off <? 0) (o / 3600000000) (o mod 3600000000 / 60000000)
    (o mod 3600000000 mod 60000000 / 1000000) u
  = Return (Some off).
Proof.
  intros [Hrange Hsec] -> o. unfold timezone_of, in_range, MAXOFFSET in *.
  destruct Hsec as [-> | Hsec]; [reflexivity | ].
  fold o in Hsec. cbv zeta.
  assert (Ho : 0 <= o) by apply Z.abs_nonneg.
  assert (Hsecs : ((o / 3600000000 * 60 + o mod 3600000000 / 60000000) * 60
                   + o mod 3600000000 mod 60000000 / 1000000) * 1000000
                  + o mod 1000000 = o)
    by (Z.to_euclidean_division_equations; lia).
  replace ((o / 3600000000 * 60 + o mod 3600000000 / 60000000) * 60
           + o mod 3600000000 mod 60000000 / 1000000 =? 0) with false
    by (symmetry; apply Z.eqb_neq; Z.to_euclidean_division_equations; lia).
  cbv iota. fold o. rewrite Hsecs.
  replace (if off <? 0 then - o else o) with off
    by (unfold o; destruct (Z.ltb_spec off 0); lia).
  replace ((- (24 * 3600 * 1000000 - 1) <=? off) && (off <=? 24 * 3600 * 1000000 - 1))
    with true; [reflexivity | ].
  symmetry. apply andb_true_iff. split; apply Z.leb_le; lia.
Qed.

Lemma offset_fields off :
  valid_offset off ->
  let o := Z.abs off in
  0 <= o / 3600000000 < 100
  /\ 0 <= o mod 3600000000 / 60000000 < 100
  /\ 0 <= o mod 3600000000 mod 60000000 / 1000000 < 100
  /\ 0 <= o mod 1000000 < 1000000.
Proof.
  intros [Hrange _] o. unfold MAXOFFSET in Hrange.
  assert (Ho : 0 <= o < 24 * 3600 * 1000000) by (unfold o; lia).
  repeat split; Z.to_euclidean_division_equations; lia.
Qed.

(** The sign [%z] prints in front of an offset. *)
Lemma format_utcoffset_sign off :
  (if off <? 0 then "-" else "+")
  = String (if off <? 0 then "-"%char else "+"%char) "".
Proof. destruct (off <? 0); reflexivity. Qed.

Lemma parse_isoformat_time_aware h mi s off :
  0 <= h < 100 -> 0 <= mi < 100 -> 0 <= s < 100 -> valid_offset off ->
  parse_isoformat_time (time_text h mi s ++ format_utcoffset (Some off))
  = Return (h, mi, s, 0, Some off).
Proof.
  intros Hh Hmi Hs Hoff.
  pose proof (timezone_of_offset off _ Hoff eq_refl) as Htz.
  destruct (offset_fields off Hoff) as (HH & HM & HS & HU).
  cbv zeta in Htz, HH, HM, HS, HU. unfold format_utcoffset.
  set (o := Z.abs off) in *.
  set (oh := o / 3600000000) in *.
  set (om := o mod 3600000000 / 60000000) in *.
  set (os := o mod 3600000000 mod 60000000 / 1000000) in *.
  set (ou := o mod 1000000) in *.
  cbv zeta. rewrite format_utcoffset_sign.
  destruct (Z.eqb_spec ou 0) as [Eu | Eu];
    [ rewrite Eu in Htz;
      destruct (Z.eqb_spec os 0) as [Es | Es]; [rewrite Es in Htz | ] | ];
    cbn [negb];
    match goal with
    | |- context [String ?c "" ++ ?r] => change (String c "" ++ r) with (String c r)
    end.
  - rewrite (parse_isoformat_time_signed h mi s (off <? 0) _ oh om 0 0 Hh Hmi Hs
               (parse_offset_hhmm oh om HH HM)).
    rewrite Htz. reflexivity.
  - rewrite (parse_isoformat_time_signed h mi s (off <? 0) _ oh om os 0 Hh Hmi Hs
               (parse_offset_hhmmss oh om os HH HM HS)).
    rewrite Htz. reflexivity.
  - rewrite (parse_isoformat_time_signed h mi s (off <? 0) _ oh om os ou Hh Hmi Hs
               (parse_offset_hhmmss_ffffff oh om os HH HM HS ou HU)).
    rewrite Htz. reflexivity.
Qed.

(** *** Reading back a printed timestamp *)

Lemma replace_append old new s1 s2 :
  replace old new (s1 ++ s2) = replace old new s1 ++ replace old new s2.
Proof.
  induction s1 as [ | c t IH]; [reflexivity | ].
  simpl. destruct (Ascii.eqb c old); rewrite IH.
  - rewrite append_assoc. reflexivity.
  - reflexivity.
Qed.

Lemma replace_pad old new w n :
  is_digit old = false -> replace old new (pad w n) = pad w n.
Proof.
  intros Hold. revert n. induction w as [ | w IH]; intros n; [reflexivity | ].
  cbn [pad]. rewrite replace_append, IH. cbn [replace].
  rewrite dc_eqb_nondigit by exact Hold. reflexivity.
Qed.

(** Printed text holds no [Z] and one space, the one after the date. *)
Ltac replace_printed :=
  rewrite ?replace_append; rewrite ?replace_pad by reflexivity;
  cbn [replace Ascii.eqb Bool.eqb andb append].

Lemma iso_text_offset tz : iso_text (format_utcoffset tz) = format_utcoffset tz.
Proof.
  unfold iso_text, format_utcoffset.
  destruct tz as [off | ]; [ | reflexivity].
  destruct (off <? 0);
    destruct (negb (Z.abs off mod 1000000 =? 0));
    try destruct (negb (Z.abs off mod 3600000000 mod 60000000 / 1000000 =? 0));
    do 2 replace_printed; reflexivity.
Qed.

Lemma format_year_four_digits yf y :
  yf = FourDigitYear \/ 1000 <= y -> format_year yf y = pad 4 y.
Proof.
  intros [-> | Hy]; [reflexivity | ].
  destruct yf; [ | reflexivity]. unfold format_year.
  destruct (Z.ltb_spec y 10); [lia | ].
  destruct (Z.ltb_spec y 100); [lia | ].
  destruct (Z.ltb_spec y 1000); [lia | reflexivity].
Qed.

Lemma strftime_four_digits yf dt :
  yf = FourDigitYear \/ 1000 <= year dt -> strftime yf dt = strftime FourDigitYear dt.
Proof.
  intros Hyear. unfold strftime, strftime_seconds.
  rewrite (format_year_four_digits yf (year dt) Hyear). reflexivity.
Qed.

Lemma iso_text_strftime yf dt :
  yf = FourDigitYear \/ 1000 <= year dt ->
  iso_text (strftime yf dt)
  = date_text (year dt) (month dt) (day dt) ++ "T"
    ++ time_text (hour dt) (minute dt) (second dt) ++ format_utcoffset (tzinfo dt).
Proof.
  intros Hyear. unfold strftime. unfold iso_text at 1.
  rewrite !replace_append. fold (iso_text (format_utcoffset (tzinfo dt))).
  rewrite iso_text_offset.
  unfold strftime_seconds, date_text, time_text.
  rewrite (format_year_four_digits yf (year dt) Hyear).
  do 2 replace_printed. rewrite !append_assoc. reflexivity.
Qed.

Lemma substring_0_0 s : substring 0 0 s = "".
Proof. destruct s; reflexivity. Qed.

Lemma date_text_length y mo d rest :
  String.length (date_text y mo d ++ rest) = (10 + String.length rest)%nat.
Proof. unfold date_text. step. reflexivity. Qed.

Lemma advance_by_date_text y mo d c rest :
  advance_by 11 (date_text y mo d ++ String c rest) = rest.
Proof. unfold date_text. step. reflexivity. Qed.

(** After a date of the form [YYYY-MM-DD] and one character, the rest is
    read as the time. *)
Lemma fromisoformat_date_then y mo d c rest :
  0 <= y < 10000 -> 0 <= mo < 100 -> 0 <= d < 100 ->
  fromisoformat (date_text y mo d ++ String c rest)
  = ('(hh, mm, ss, us, tz) <- parse_isoformat_time rest ;;
     new_datetime y mo d hh mm ss us tz).
Proof.
  intros Hy Hmo Hd. unfold fromisoformat.
  rewrite separator_after_date, date_text_length.
  cbn [String.length Nat.add Nat.ltb Nat.leb bind].
  rewrite (parse_date_text y mo d _ _ Hy Hmo Hd).
  cbn [bind]. rewrite advance_by_date_text. reflexivity.
Qed.

(** A date alone. *)
Lemma fromisoformat_date y mo d :
  0 <= y < 10000 -> 0 <= mo < 100 -> 0 <= d < 100 ->
  fromisoformat (date_text y mo d) = new_datetime y mo d 0 0 0 0 None.
Proof.
  intros Hy Hmo Hd. unfold fromisoformat.
  rewrite <- (append_empty_r (date_text y mo d)).
  rewrite separator_after_date, date_text_length.
  cbn [String.length Nat.add Nat.ltb Nat.leb bind].
  rewrite (parse_date_text y mo d _ _ Hy Hmo Hd). reflexivity.
Qed.

Lemma fromisoformat_canonical y mo d h mi s tz :
  0 <= y < 10000 -> 0 <= mo < 100 -> 0 <= d < 100 ->
  0 <= h < 100 -> 0 <= mi < 100 -> 0 <= s < 100 -> valid_zone tz ->
  fromisoformat (date_text y mo d ++ "T" ++ time_text h mi s ++ format_utcoffset tz)
  = new_datetime y mo d h mi s 0 tz.
Proof.
  intros Hy Hmo Hd Hh Hmi Hs Htz.
  change ("T" ++ time_text h mi s ++ format_utcoffset tz)
    with (String "T" (time_text h mi s ++ format_utcoffset tz)).
  rewrite (fromisoformat_date_then y mo d _ _ Hy Hmo Hd).
  destruct tz as [off | ].
  - rewrite (parse_isoformat_time_aware h mi s off Hh Hmi Hs Htz). reflexivity.
  - cbn [format_utcoffset].
    rewrite append_empty_r, (parse_isoformat_time_naive h mi s Hh Hmi Hs). reflexivity.
Qed.

(** *** What the parser returns *)

Lemma bind_Return_inv {A B : Type} (m : outcome A) (k : A -> outcome B) (b : B) :
  bind m k = Return b -> exists a, m = Return a /\ k a = Return b.
Proof.
  destruct m as [a | e]; simpl; intros H; [exists a; auto | discriminate H].
Qed.

(** Splits a successful run of monadic code into its successful steps. *)
Ltac invert_return :=
  repeat match goal with
    | H : bind _ _ = Return _ |- _ =>
        apply bind_Return_inv in H; destruct H as (? & ? & H)
    | H : Return _ = Return _ |- _ => injection H as H; subst
    | H : Raise _ = Return _ |- _ => discriminate H
    | H : (if ?b then _ else _) = Return _ |- _ => destruct b eqn:?
    | H : match ?x with _ => _ end = Return _ |- _ => destruct x eqn:?
    | H : (_, _) = (_, _) |- _ => injection H as H; subst
    end.

Lemma digits_value_nonneg s : forall acc,
  all_digits s = true -> 0 <= acc -> 0 <= digits_value acc s.
Proof.
  induction s as [ | c t IH]; intros acc Hall Hacc; [exact Hacc | ].
  cbn [all_digits digits_value] in *.
  apply andb_true_iff in Hall. destruct Hall as [Hc Ht].
  apply IH; [exact Ht | ].
  unfold is_digit in Hc. apply andb_true_iff in Hc. destruct Hc as [Hc _].
  apply Z.leb_le in Hc. unfold digit_val. lia.
Qed.

Lemma parse_digits_nonneg n : forall p acc v p',
  parse_digits p acc n = Some (v, p') -> 0 <= acc -> 0 <= v.
Proof.
  induction n as [ | n IH]; intros p acc v p' H Hacc; cbn [parse_digits] in H.
  - injection H as <- _. exact Hacc.
  - destruct (is_digit (peek p)) eqn:Hd; [ | discriminate H].
    apply (IH _ _ _ _ H).
    unfold is_digit in Hd. apply andb_true_iff in Hd. destruct Hd as [Hlo _].
    apply Z.leb_le in Hlo. unfold digit_val. lia.
Qed.

Lemma parse_fraction_nonneg p len us unparsed :
  parse_fraction p len = Return (us, unparsed) -> 0 <= us.
Proof.
  unfold parse_fraction. intros H.
  destruct (parse_digits p 0 (Nat.min 6 len)) as [[v p'] | ] eqn:E; [ | discriminate H].
  injection H as <- _. apply parse_digits_nonneg in E; [ | lia].
  apply Z.mul_nonneg_nonneg; [exact E | apply Z.pow_nonneg; lia].
Qed.

Lemma parse_field_nonneg first sep p len v sep' next :
  parse_field first sep p len = Return (v, sep', next) -> 0 <= v.
Proof.
  unfold parse_field. intros H.
  destruct (parse_digits p 0 2) as [[v0 p'] | ] eqn:E; [ | discriminate H].
  apply parse_digits_nonneg in E; [ | lia].
  repeat match type of H with
    | (if ?b then _ else _) = _ => destruct b
    end;
    try discriminate H; injection H as <- _ _; exact E.
Qed.

Lemma parse_hh_mm_ss_ff_nonneg t len h m s u unparsed :
  parse_hh_mm_ss_ff t len = Return (h, m, s, u, unparsed) ->
  0 <= h /\ 0 <= m /\ 0 <= s /\ 0 <= u.
Proof.
  unfold parse_hh_mm_ss_ff. intros H. invert_return;
    repeat match goal with
      | Hd : parse_field _ _ _ _ = Return _ |- _ => apply parse_field_nonneg in Hd
      | Hf : parse_fraction _ _ = Return _ |- _ => apply parse_fraction_nonneg in Hf
      end;
    repeat split; lia.
Qed.

Lemma timezone_of_valid neg h m s u tz :
  0 <= h -> 0 <= m -> 0 <= s -> 0 <= u ->
  timezone_of neg h m s u = Return tz -> valid_zone tz.
Proof.
  intros Hh Hm Hs Hu. unfold timezone_of, valid_zone, valid_offset, in_range, MAXOFFSET.
  destruct (Z.eqb_spec ((h * 60 + m) * 60 + s) 0) as [E | E]; intros H.
  - injection H as <-. lia.
  - invert_return.
    match goal with
    | Hr : _ && _ = true |- _ =>
        apply andb_true_iff in Hr; destruct Hr as [Hlo Hhi];
        apply Z.leb_le in Hlo, Hhi
    end.
    destruct neg; split; try lia; right; nia.
Qed.

Lemma parse_isoformat_time_zone t h m s u tz :
  parse_isoformat_time t = Return (h, m, s, u, tz) -> valid_zone tz.
Proof.
  unfold parse_isoformat_time. intros H. invert_return;
    try exact I;
    try (unfold valid_zone, valid_offset, MAXOFFSET; lia).
  all: match goal with
       | Hp : parse_hh_mm_ss_ff (advance _) _ = Return _,
         Hz : timezone_of _ _ _ _ _ = Return _ |- _ =>
           apply parse_hh_mm_ss_ff_nonneg in Hp;
           destruct Hp as (? & ? & ? & ?);
           revert Hz; apply timezone_of_valid; assumption
       end.
Qed.

Lemma fromisoformat_valid text dt : fromisoformat text = Return dt -> valid_datetime dt.
Proof.
  unfold fromisoformat, new_datetime. intros H. invert_return.
  all: split; [assumption | cbn [tzinfo]].
  all: try exact I.
  all: eapply parse_isoformat_time_zone; eassumption.
Qed.

Lemma days_in_month_le y m : 1 <= m <= 12 -> days_in_month y m <= 31.
Proof.
  intros Hm. unfold days_in_month.
  assert (Hc : m = 1 \/ m = 2 \/ m = 3 \/ m = 4 \/ m = 5 \/ m = 6 \/ m = 7
               \/ m = 8 \/ m = 9 \/ m = 10 \/ m = 11 \/ m = 12) by lia.
  repeat (destruct Hc as [-> | Hc]; [simpl; try destruct (is_leap y); lia | ]).
  subst m. simpl. lia.
Qed.

Lemma check_fields_bounds dt :
  check_fields dt = true ->
  1 <= year dt <= 9999 /\ 1 <= month dt <= 12 /\ 1 <= day dt <= 31
  /\ 0 <= hour dt <= 23 /\ 0 <= minute dt <= 59 /\ 0 <= second dt <= 59.
Proof.
  unfold check_fields, in_range, MINYEAR, MAXYEAR. intros H.
  repeat match goal with
    | Hc : _ && _ = true |- _ => apply andb_true_iff in Hc; destruct Hc
    | Hc : (_ <=? _) = true |- _ => apply Z.leb_le in Hc
    end.
  pose proof (days_in_month_le (year dt) (month dt)). lia.
Qed.

(** Printing a valid value and parsing the text again gives the value back,
    less its microseconds, which are not printed. *)
Lemma fromisoformat_strftime yf dt :
  valid_datetime dt ->
  yf = FourDigitYear \/ 1000 <= year dt ->
  fromisoformat (iso_text (strftime yf dt))
  = Return (mk_datetime (year dt) (month dt) (day dt)
              (hour dt) (minute dt) (second dt) 0 (tzinfo dt)).
Proof.
  intros [Hfields Hzone] Hyear.
  destruct (check_fields_bounds dt Hfields) as (Hy & Hmo & Hd & Hh & Hmi & Hs).
  rewrite (iso_text_strftime yf dt Hyear), fromisoformat_canonical by (assumption || lia).
  unfold new_datetime.
  replace (check_fields _) with true; [reflexivity | ].
  symmetry. unfold check_fields in *.
  cbn [year month day hour minute second microsecond].
  repeat match goal with
    | Hc : _ && _ = true |- _ => apply andb_true_iff in Hc; destruct Hc
    end.
  repeat match goal with
    | Hc : in_range _ _ _ = true |- _ => rewrite Hc; clear Hc
    end.
  reflexivity.
Qed.

(** Printed by glibc, a year below 1000 leaves a hyphen among the first four
    characters. *)
Lemma bare_year_four_digits dt :
  check_fields dt = true ->
  all_digits (substring 0 4 (strftime BareYear dt)) = true -> 1000 <= year dt.
Proof.
  intros Hfields.
  destruct (check_fields_bounds dt Hfields) as (Hy & _).
  unfold strftime, strftime_seconds, format_year.
  destruct (Z.ltb_spec (year dt) 10) as [L1 | L1];
    [ | destruct (Z.ltb_spec (year dt) 100) as [L2 | L2];
        [ | destruct (Z.ltb_spec (year dt) 1000) as [L3 | L3];
            [ | intros _; assumption]]];
    step; digits; cbn [andb]; intros Hdigits; discriminate Hdigits.
Qed.

(** C7, as stated, fails where [%Y] prints the bare year: the first
    cleaning of a year below 1000 prints fewer than four digits, and the
    second cleaning cannot parse them. *)
Lemma bare_year_is_not_cleaned_twice :
  clean_timestamp BareYear (VStr "0999-01-01") = Return (VStr "999-01-01 00:00:00")
  /\ clean_timestamp BareYear (VStr "999-01-01 00:00:00") = Return VNone.
Proof. split; vm_compute; reflexivity. Qed.

(** C7, amended. Timestamp cleaning is idempotent on every output that
    starts with a four-digit year: when a string is cleaned to the text [c],
    and the platform fills [%Y] to four digits or the first four characters
    of [c] are digits, cleaning [c] gives [c] again. *)
Theorem clean_timestamp_idempotent (yf : year_format) (s c : string) :
  clean_timestamp yf (VStr s) = Return (VStr c) ->
  yf = FourDigitYear \/ all_digits (substring 0 4 c) = true ->
  clean_timestamp yf (VStr c) = Return (VStr c).
Proof.
  destruct s as [ | a t].
  - intros H _. injection H as <-. reflexivity.
  - unfold clean_timestamp at 1.
    destruct (fromisoformat (iso_text (String a t))) as [dt | e] eqn:Hparse.
    + cbn [bind except_Value_Type]. intros H Hyear. injection H as <-.
      apply fromisoformat_valid in Hparse.
      assert (Hyear' : yf = FourDigitYear \/ 1000 <= year dt).
      { destruct Hyear as [-> | Hdigits]; [left; reflexivity | ].
        destruct yf; [right | left; reflexivity].
        apply bare_year_four_digits; [apply Hparse | exact Hdigits]. }
      rewrite (strftime_four_digits yf dt Hyear').
      change (clean_timestamp yf (VStr (strftime FourDigitYear dt)))
        with (except_Value_Type
                (dt' <- fromisoformat (iso_text (strftime FourDigitYear dt)) ;;
                 Return (VStr (strftime yf dt'))) VNone).
      rewrite (fromisoformat_strftime FourDigitYear dt Hparse (or_introl eq_refl)).
      cbn [bind except_Value_Type].
      rewrite <- (strftime_four_digits yf dt Hyear'). reflexivity.
    + destruct e; intros H; discriminate H.
Qed.

Lemma clean_timestamp_idempotent_witness :
  clean_timestamp BareYear (VStr "2024-07-27 20:20:00+0000")
  = Return (VStr "2024-07-27 20:20:00+0000").
Proof.
  apply (clean_timestamp_idempotent BareYear
           "2024-07-27T20:20:00Z" "2024-07-27 20:20:00+0000").
  - vm_compute. reflexivity.
  - right. vm_compute. reflexivity.
Defined.

(** ** Locating the project directory *)

Lemma substring_is_prefix n s : exists r, s = substring 0 n s ++ r.
Proof.
  revert n. induction s as [ | c t IH]; intros n.
  - exists "". destruct n; reflexivity.
  - destruct n as [ | n]; [exists (String c t); reflexivity | ].
    destruct (IH n) as [r Hr]. exists r. simpl. rewrite <- Hr. reflexivity.
Qed.

Lemma rstrip_char_is_prefix ch s : exists r, s = rstrip_char ch s ++ r.
Proof.
  induction s as [ | c t [r Hr]]; [exists ""; reflexivity | ].
  simpl. destruct (rstrip_char ch t) as [ | c' t'].
  - destruct (Ascii.eqb c ch); [exists (String c t) | exists t]; reflexivity.
  - exists r. simpl in *. rewrite <- Hr. reflexivity.
Qed.

Lemma dirname_is_prefix p : exists r, p = dirname p ++ r.
Proof.
  unfold dirname.
  destruct (substring_is_prefix (after_last_sep p) p) as [r Hr].
  destruct (nonempty _ && negb _); [ | exists r; exact Hr].
  destruct (rstrip_char_is_prefix "/" (substring 0 (after_last_sep p) p)) as [r' Hr'].
  exists (r' ++ r). rewrite <- append_assoc, <- Hr'. exact Hr.
Qed.

(** A turn of the loop that does not stop leaves a shorter path. *)
Lemma dirname_shorter p :
  String.eqb p (dirname p) = false ->
  (String.length (dirname p) < String.length p)%nat.
Proof.
  intros Hne. apply String.eqb_neq in Hne.
  destruct (dirname_is_prefix p) as [r Hr].
  destruct r as [ | c r].
  - rewrite append_empty_r in Hr. contradiction.
  - rewrite Hr at 2. rewrite append_length. simpl. lia.
Qed.

Lemma walk_up_enough_fuel fuel : forall p,
  (String.length p < fuel)%nat -> exists r, walk_up fuel p = Some r.
Proof.
  induction fuel as [ | fuel IH]; intros p Hlen; [lia | ].
  cbn [walk_up].
  destruct (String.eqb p (dirname p)) eqn:Estop; [eauto | ].
  destruct (String.eqb (basename p) PROJECT_DIR); [eauto | ].
  apply IH. pose proof (dirname_shorter p Estop). lia.
Qed.

Lemma walk_up_more_fuel fuel : forall p r k,
  walk_up fuel p = Some r -> walk_up (fuel + k) p = Some r.
Proof.
  induction fuel as [ | fuel IH]; intros p r k H; [discriminate H | ].
  cbn [walk_up Nat.add] in *.
  destruct (String.eqb p (dirname p)); [exact H | ].
  destruct (String.eqb (basename p) PROJECT_DIR); [exact H | ].
  apply IH. exact H.
Qed.

(** The outcome of the loop does not depend on the turns it is allowed, once
    some number of them suffices. *)
Lemma walk_up_find abspath start fuel r :
  walk_up fuel (abspath start) = Some r -> find_project_root abspath start = Some r.
Proof.
  intros H. unfold find_project_root.
  set (p := abspath start) in *.
  destruct (walk_up_enough_fuel (S (String.length p)) p ltac:(lia)) as [r' Hr'].
  rewrite Hr'.
  apply (walk_up_more_fuel _ _ _ (S (String.length p))) in H.
  apply (walk_up_more_fuel _ _ _ fuel) in Hr'.
  rewrite Nat.add_comm in Hr'. congruence.
Qed.

(** What a found directory is: named [PROJECT_DIR], a prefix of the starting
    path, and not a root. *)
Lemma walk_up_found fuel : forall p r,
  walk_up fuel p = Some (Found r) ->
  basename r = PROJECT_DIR /\ String.eqb r (dirname r) = false /\ exists rest, p = r ++ rest.
Proof.
  induction fuel as [ | fuel IH]; intros p r H; [discriminate H | ].
  cbn [walk_up] in H.
  destruct (String.eqb p (dirname p)) eqn:Estop; [discriminate H | ].
  destruct (String.eqb (basename p) PROJECT_DIR) eqn:Ename.
  - injection H as <-. apply String.eqb_eq in Ename.
    repeat split; [exact Ename | exact Estop | exists ""; symmetry; apply append_empty_r].
  - destruct (IH _ _ H) as (Hname & Hroot & rest & Hrest).
    repeat split; [exact Hname | exact Hroot | ].
    destruct (dirname_is_prefix p) as [r' Hr'].
    exists (rest ++ r'). rewrite <- append_assoc, <- Hrest. exact Hr'.
Qed.

(** *** Paths given by their components *)

Lemma rfind_char_absent ch s : find_char ch s = None -> rfind_char ch s = None.
Proof.
  induction s as [ | c t IH]; [reflexivity | ].
  simpl. destruct (Ascii.eqb c ch); [discriminate | ].
  destruct (find_char ch t); [discriminate | ].
  intros _. rewrite IH; reflexivity.
Qed.

Lemma rfind_char_last ch q t :
  find_char ch t = None ->
  rfind_char ch (q ++ String ch t) = Some (String.length q).
Proof.
  intros Ht. induction q as [ | c q IH]; simpl.
  - rewrite (rfind_char_absent ch t Ht), Ascii.eqb_refl. reflexivity.
  - simpl in IH. rewrite IH. reflexivity.
Qed.

Lemma substring_append_left q t k :
  substring 0 (String.length q + k) (q ++ t) = q ++ substring 0 k t.
Proof. induction q as [ | c q IH]; simpl; [ | rewrite IH]; reflexivity. Qed.

Lemma substring_append_right q t k n :
  substring (String.length q + k) n (q ++ t) = substring k n t.
Proof. induction q as [ | c q IH]; simpl; [ | rewrite IH]; reflexivity. Qed.

Lemma rstrip_char_snoc ch s : rstrip_char ch (s ++ String ch "") = rstrip_char ch s.
Proof.
  induction s as [ | c t IH]; simpl.
  - rewrite Ascii.eqb_refl. reflexivity.
  - rewrite IH. reflexivity.
Qed.

Lemma rstrip_char_absent ch s : find_char ch s = None -> rstrip_char ch s = s.
Proof.
  induction s as [ | c t IH]; [reflexivity | ].
  simpl. destruct (Ascii.eqb c ch); [discriminate | ].
  destruct (find_char ch t); [discriminate | ].
  intros _. rewrite IH by reflexivity. destruct t; reflexivity.
Qed.

Lemma rstrip_char_append ch a b :
  b <> "" -> rstrip_char ch b = b -> rstrip_char ch (a ++ b) = a ++ b.
Proof.
  intros Hb Hfix. induction a as [ | c a IH]; [exact Hfix | ].
  simpl. rewrite IH. destruct (a ++ b) eqn:E; [ | reflexivity].
  destruct a; [contradiction | discriminate E].
Qed.

Lemma only_char_append ch a b : only_char ch (a ++ b) = only_char ch a && only_char ch b.
Proof.
  induction a as [ | c a IH]; [reflexivity | ].
  simpl. rewrite IH, andb_assoc. reflexivity.
Qed.

Lemma only_char_absent ch s : s <> "" -> find_char ch s = None -> only_char ch s = false.
Proof.
  destruct s as [ | c t]; [contradiction | ].
  intros _. simpl. destruct (Ascii.eqb c ch); [discriminate | reflexivity].
Qed.

Lemma rooted_app l1 l2 : rooted (l1 ++ l2)%list = rooted l1 ++ rooted l2.
Proof.
  induction l1 as [ | c t IH]; [reflexivity | ].
  cbn [rooted List.app append]. rewrite IH, append_assoc. reflexivity.
Qed.

Lemma rooted_snoc l c : rooted (l ++ [c])%list = rooted l ++ String "/" c.
Proof. rewrite rooted_app. cbn [rooted append]. rewrite append_empty_r. reflexivity. Qed.

Lemma absolute_path_snoc l c : absolute_path (l ++ [c])%list = rooted l ++ String "/" c.
Proof. rewrite <- rooted_snoc. destruct l; reflexivity. Qed.

Lemma basename_snoc q c :
  find_char "/" c = None -> basename (q ++ String "/" c) = c.
Proof.
  intros Hc. unfold basename, after_last_sep.
  rewrite (rfind_char_last "/" q c Hc).
  replace (S (String.length q)) with (String.length q + 1)%nat by lia.
  rewrite substring_append_right. cbn [substring].
  apply substring_all. rewrite append_length. simpl. lia.
Qed.

Lemma head_snoc q c :
  find_char "/" c = None ->
  substring 0 (after_last_sep (q ++ String "/" c)) (q ++ String "/" c) = q ++ "/".
Proof.
  intros Hc. unfold after_last_sep. rewrite (rfind_char_last "/" q c Hc).
  replace (S (String.length q)) with (String.length q + 1)%nat by lia.
  rewrite substring_append_left. cbn [substring]. rewrite substring_0_0. reflexivity.
Qed.

(** The parent of [/c1/.../cn/c] is [/c1/.../cn], and [/] when [n] is 0. *)
Lemma dirname_snoc l c :
  Forall component l -> find_char "/" c = None ->
  dirname (rooted l ++ String "/" c) = absolute_path l.
Proof.
  intros Hl Hc. unfold dirname. rewrite (head_snoc _ c Hc).
  destruct l as [ | c0 l0] using rev_ind; [reflexivity | ].
  clear IHl0. apply Forall_app in Hl. destruct Hl as [_ Hc0].
  inversion Hc0 as [ | ? ? [Hne Hfree] _]; subst.
  rewrite absolute_path_snoc, rooted_snoc.
  assert (Hmix : only_char "/" ((rooted l0 ++ String "/" c0) ++ "/") = false).
  { rewrite !only_char_append. cbn [only_char].
    rewrite (only_char_absent "/" c0 Hne Hfree), !andb_false_r. reflexivity. }
  rewrite Hmix.
  replace (nonempty ((rooted l0 ++ String "/" c0) ++ "/")) with true
    by (destruct (rooted l0); reflexivity).
  cbn [andb negb]. rewrite rstrip_char_snoc.
  apply rstrip_char_append; [discriminate | ].
  cbn [rstrip_char]. rewrite (rstrip_char_absent "/" c0 Hfree).
  destruct c0; [contradiction | reflexivity].
Qed.

Lemma absolute_path_not_parent l c :
  c <> "" -> String.eqb (rooted l ++ String "/" c) (absolute_path l) = false.
Proof.
  intros Hc. apply String.eqb_neq. intros H.
  apply (f_equal String.length) in H.
  destruct l as [ | c0 l0]; cbn [absolute_path] in H.
  - destruct c; [contradiction | simpl in H; lia].
  - rewrite append_length in H. simpl in H. lia.
Qed.

(** One turn of the loop on a path given by its components. *)
Lemma walk_up_snoc fuel l c :
  Forall component l -> component c ->
  walk_up (S fuel) (absolute_path (l ++ [c])%list)
  = if String.eqb c PROJECT_DIR then Some (Found (absolute_path (l ++ [c])%list))
    else walk_up fuel (absolute_path l).
Proof.
  intros Hl [Hne Hc]. rewrite absolute_path_snoc. cbn [walk_up].
  rewrite (dirname_snoc l c Hl Hc), (absolute_path_not_parent l c Hne).
  rewrite (basename_snoc _ c Hc). reflexivity.
Qed.

Lemma walk_up_root fuel : walk_up (S fuel) (absolute_path []) = Some FileNotFoundError.
Proof. reflexivity. Qed.

Lemma walk_up_absent l :
  Forall component l -> ~ In PROJECT_DIR l ->
  walk_up (S (List.length l)) (absolute_path l) = Some FileNotFoundError.
Proof.
  induction l as [ | c l IH] using rev_ind; intros Hl Hnot; [reflexivity | ].
  apply Forall_app in Hl. destruct Hl as [Hl Hc]. inversion Hc as [ | ? ? Hc' _]; subst.
  rewrite length_app, Nat.add_comm. cbn [List.length Nat.add].
  rewrite (walk_up_snoc _ l c Hl Hc').
  destruct (String.eqb_spec c PROJECT_DIR) as [-> | _].
  - contradiction Hnot. apply in_or_app. right. left. reflexivity.
  - apply IH; [exact Hl | ]. intros Hin. apply Hnot, in_or_app. left. exact Hin.
Qed.

Lemma walk_up_deepest before after :
  Forall component (before ++ PROJECT_DIR :: after)%list -> ~ In PROJECT_DIR after ->
  walk_up (S (List.length after)) (absolute_path (before ++ PROJECT_DIR :: after)%list)
  = Some (Found (absolute_path (before ++ [PROJECT_DIR])%list)).
Proof.
  induction after as [ | c after IH] using rev_ind; intros Hl Hnot.
  - apply Forall_app in Hl. destruct Hl as [Hl Hc]. inversion Hc as [ | ? ? Hc' _]; subst.
    rewrite (walk_up_snoc _ before PROJECT_DIR Hl Hc'). reflexivity.
  - change (before ++ PROJECT_DIR :: after ++ [c])%list
      with (before ++ (PROJECT_DIR :: after) ++ [c])%list in *.
    rewrite app_assoc in *.
    apply Forall_app in Hl. destruct Hl as [Hl Hc]. inversion Hc as [ | ? ? Hc' _]; subst.
    rewrite length_app, Nat.add_comm. cbn [List.length Nat.add].
    rewrite (walk_up_snoc _ _ c Hl Hc').
    destruct (String.eqb_spec c PROJECT_DIR) as [-> | _].
    + contradiction Hnot. apply in_or_app. right. left. reflexivity.
    + apply IH; [exact Hl | ]. intros Hin. apply Hnot, in_or_app. left. exact Hin.
Qed.

(** ** Locating the project directory: results *)

(** X1. The search for the project directory ends on every starting path:
    each turn of the loop that does not stop replaces the path by a strictly
    shorter one, so it either returns a directory or raises
    [FileNotFoundError]. *)
Theorem find_project_root_terminates (abspath : string -> string) (start_path : string) :
  exists r, find_project_root abspath start_path = Some r.
Proof. unfold find_project_root. apply walk_up_enough_fuel. lia. Qed.

(** X2. A directory returned by [find_project_root] is named
    [gold-silver-analysis-v2], is not its own parent, and is the absolute
    starting path or a prefix of it. *)
Theorem find_project_root_found (abspath : string -> string) (start_path r : string) :
  find_project_root abspath start_path = Some (Found r) ->
  basename r = PROJECT_DIR
  /\ dirname r <> r
  /\ exists rest, abspath start_path = r ++ rest.
Proof.
  unfold find_project_root. intros H. apply walk_up_found in H.
  destruct H as (Hname & Hroot & Hrest).
  repeat split; [exact Hname | | exact Hrest].
  apply String.eqb_neq in Hroot. congruence.
Qed.

Lemma find_project_root_found_witness :
  basename "/srv/gold-silver-analysis-v2" = PROJECT_DIR
  /\ dirname "/srv/gold-silver-analysis-v2" <> "/srv/gold-silver-analysis-v2"
  /\ exists rest,
       "/srv/gold-silver-analysis-v2/scripts/export" = "/srv/gold-silver-analysis-v2" ++ rest.
Proof.
  apply (find_project_root_found (fun p => p)
           "/srv/gold-silver-analysis-v2/scripts/export" "/srv/gold-silver-analysis-v2").
  vm_compute. reflexivity.
Defined.

(** X3. When the absolute starting path is [/c1/.../cn], the search returns
    the deepest directory on it that is named [gold-silver-analysis-v2], that
    is, the path up to the last such component; when no component has that
    name it raises [FileNotFoundError]. *)
Theorem find_project_root_deepest (abspath : string -> string) (start_path : string)
    (components : list string) :
  Forall component components ->
  abspath start_path = absolute_path components ->
  (forall before after,
      components = (before ++ PROJECT_DIR :: after)%list -> ~ In PROJECT_DIR after ->
      find_project_root abspath start_path
      = Some (Found (absolute_path (before ++ [PROJECT_DIR])%list)))
  /\ (~ In PROJECT_DIR components ->
      find_project_root abspath start_path = Some FileNotFoundError).
Proof.
  intros Hall Habs. split.
  - intros before after -> Hlast.
    apply (walk_up_find abspath start_path (S (List.length after))).
    rewrite Habs. apply walk_up_deepest; assumption.
  - intros Hnot.
    apply (walk_up_find abspath start_path (S (List.length components))).
    rewrite Habs. apply walk_up_absent; assumption.
Qed.

Lemma find_project_root_deepest_witness :
  find_project_root (fun p => p) "/srv/gold-silver-analysis-v2/scripts"
  = Some (Found "/srv/gold-silver-analysis-v2").
Proof.
  assert (Hall : Forall component ["srv"; PROJECT_DIR; "scripts"])
    by (repeat constructor; discriminate).
  apply (proj1 (find_project_root_deepest (fun p => p)
                  "/srv/gold-silver-analysis-v2/scripts"
                  ["srv"; PROJECT_DIR; "scripts"] Hall eq_refl)
           ["srv"] ["scripts"] eq_refl).
  intros [H | []]. discriminate H.
Defined.

(** *** Files under the project directory *)

Lemma substring_split s : forall n m,
  (String.length s <= m)%nat -> s = substring 0 n s ++ substring n m s.
Proof.
  induction s as [ | c t IH]; intros n m Hm.
  - destruct n, m; reflexivity.
  - destruct n as [ | n].
    + rewrite substring_0_0, substring_all by exact Hm. reflexivity.
    + cbn [substring append]. f_equal. apply IH. simpl in Hm. lia.
Qed.

Lemma basename_is_suffix p : exists head, p = head ++ basename p.
Proof.
  exists (substring 0 (after_last_sep p) p). unfold basename.
  apply substring_split. lia.
Qed.

Lemma endswith_char_append a b ch :
  b <> "" -> endswith (a ++ b) (String ch "") = endswith b (String ch "").
Proof.
  intros Hb. induction a as [ | c a IH]; [reflexivity | ].
  cbn [append]. destruct (a ++ b) as [ | c' t] eqn:E.
  - destruct a; [contradiction | discriminate E].
  - rewrite endswith_char_cons. exact IH.
Qed.

Lemma nonempty_append a b : nonempty b = true -> nonempty (a ++ b) = true.
Proof. destruct a; [auto | reflexivity]. Qed.

(** Joining a relative name to a directory that does not end in a slash. *)
Lemma path_join_relative a b :
  nonempty a = true -> endswith a "/" = false -> prefix "/" b = false ->
  path_join a b = a ++ "/" ++ b.
Proof. intros Ha Hend Hb. unfold path_join. rewrite Hb, Ha, Hend. reflexivity. Qed.

Lemma prefix_char_append c a b :
  prefix (String c "") b = false -> prefix (String c "") a = false ->
  prefix (String c "") (a ++ b) = false.
Proof.
  intros Hpb Hpa. destruct a as [ | x a]; [exact Hpb | ].
  cbn [append prefix] in *. destruct (ascii_dec c x); [ | reflexivity].
  destruct a; discriminate Hpa.
Qed.

(** X4. Under a directory found by [find_project_root], the file exported
    for a table is [<root>/exported_csvs/<table>.csv], provided the table
    name does not start with a slash. *)
Theorem csv_path_under_project_root (abspath : string -> string)
    (start_path project_root table : string) :
  find_project_root abspath start_path = Some (Found project_root) ->
  prefix "/" table = false ->
  csv_path_of project_root table = project_root ++ "/exported_csvs/" ++ table ++ ".csv".
Proof.
  unfold find_project_root. intros H Htable.
  apply walk_up_found in H. destruct H as (Hname & _ & _).
  destruct (basename_is_suffix project_root) as [head Hhead]. rewrite Hname in Hhead.
  assert (Hend : endswith project_root "/" = false)
    by (rewrite Hhead, endswith_char_append by discriminate; reflexivity).
  assert (Hne : nonempty project_root = true)
    by (rewrite Hhead; apply nonempty_append; reflexivity).
  unfold csv_path_of.
  rewrite (path_join_relative project_root OUTPUT_DIR Hne Hend eq_refl).
  rewrite path_join_relative.
  - rewrite !append_assoc. reflexivity.
  - apply nonempty_append. reflexivity.
  - rewrite endswith_char_append by discriminate. reflexivity.
  - apply prefix_char_append; [reflexivity | exact Htable].
Qed.

Lemma csv_path_under_project_root_witness :
  csv_path_of "/srv/gold-silver-analysis-v2" "companies"
  = "/srv/gold-silver-analysis-v2/exported_csvs/companies.csv".
Proof.
  apply (csv_path_under_project_root (fun p => p)
           "/srv/gold-silver-analysis-v2/scripts" "/srv/gold-silver-analysis-v2" "companies").
  - vm_compute. reflexivity.
  - reflexivity.
Defined.

(** ** The table list *)

Lemma remove_first_permutation x l :
  In x l -> Permutation (x :: remove_first x l) l.
Proof.
  induction l as [ | y t IH]; intros Hin; [contradiction | ].
  cbn [remove_first]. destruct (String.eqb_spec y x) as [-> | Hne].
  - apply Permutation_refl.
  - destruct Hin as [E | Hin]; [contradiction | ].
    apply perm_trans with (y :: x :: remove_first x t); [apply perm_swap | ].
    apply perm_skip, IH, Hin.
Qed.

Lemma move_companies_first_permutation tables :
  Permutation (move_companies_first tables) tables.
Proof.
  unfold move_companies_first.
  destruct (existsb (String.eqb "companies") tables) eqn:E; [ | apply Permutation_refl].
  apply remove_first_permutation, existsb_eqb_In, E.
Qed.

(** X5. Moving [companies] to the front only rearranges the table list,
    nothing is lost or added, and doing it a second time changes nothing. *)
Theorem move_companies_first_rearranges (tables : list string) :
  Permutation (move_companies_first tables) tables
  /\ move_companies_first (move_companies_first tables) = move_companies_first tables.
Proof.
  split; [apply move_companies_first_permutation | ].
  unfold move_companies_first.
  destruct (existsb (String.eqb "companies") tables) eqn:E; [ | rewrite E; reflexivity].
  reflexivity.
Qed.

(** X6. The tables that are processed are exactly those of [sqlite_master]
    other than [sqlite_sequence]. *)
Theorem list_tables_members (db : database) (table : string) :
  In table (list_tables db) <-> In table (sqlite_master db) /\ table <> "sqlite_sequence".
Proof.
  unfold list_tables. split.
  - intros H.
    apply (Permutation_in _ (move_companies_first_permutation _)) in H.
    apply filter_In in H. destruct H as [Hin Hne]. split; [exact Hin | ].
    apply negb_true_iff, String.eqb_neq in Hne. exact Hne.
  - intros [Hin Hne].
    apply (Permutation_in _ (Permutation_sym (move_companies_first_permutation _))).
    apply filter_In. split; [exact Hin | ].
    apply negb_true_iff, String.eqb_neq. exact Hne.
Qed.

(** ** Timestamp cleaning: the ISO 8601 forms *)

Lemma clean_timestamp_text yf s :
  s <> "" ->
  clean_timestamp yf (VStr s)
  = except_Value_Type
      (dt <- fromisoformat (iso_text s) ;; Return (VStr (strftime yf dt))) VNone.
Proof. destruct s; [contradiction | reflexivity]. Qed.

Lemma iso_text_append a b : iso_text (a ++ b) = iso_text a ++ iso_text b.
Proof. unfold iso_text. rewrite !replace_append. reflexivity. Qed.

Lemma iso_text_pad w n : iso_text (pad w n) = pad w n.
Proof. unfold iso_text. rewrite !replace_pad by reflexivity. reflexivity. Qed.

Lemma iso_text_date y mo d : iso_text (date_text y mo d) = date_text y mo d.
Proof. unfold date_text. rewrite !iso_text_append, !iso_text_pad. reflexivity. Qed.

Lemma iso_text_time h mi s : iso_text (time_text h mi s) = time_text h mi s.
Proof. unfold time_text. rewrite !iso_text_append, !iso_text_pad. reflexivity. Qed.

Lemma timezone_of_hours_minutes negative h m :
  0 <= h <= 23 -> 0 <= m <= 59 ->
  timezone_of negative h m 0 0 = Return (iso_zone_offset (Offset negative h m)).
Proof.
  intros Hh Hm. unfold timezone_of, iso_zone_offset, in_range, MAXOFFSET.
  destruct (Z.eqb_spec ((h * 60 + m) * 60 + 0) 0) as [E | E].
  - replace ((h * 60 + m) * 60000000) with 0 by lia. destruct negative; reflexivity.
  - cbv zeta.
    replace (((h * 60 + m) * 60 + 0) * 1000000 + 0) with ((h * 60 + m) * 60000000) by lia.
    replace (_ && _) with true; [reflexivity | ].
    symmetry. apply andb_true_iff. split; apply Z.leb_le; destruct negative; lia.
Qed.

Lemma parse_isoformat_time_offset h mi s negative oh om :
  0 <= h < 100 -> 0 <= mi < 100 -> 0 <= s < 100 -> 0 <= oh <= 23 -> 0 <= om <= 59 ->
  parse_isoformat_time (time_text h mi s ++ iso_zone_text (Offset negative oh om))
  = Return (h, mi, s, 0, iso_zone_offset (Offset negative oh om)).
Proof.
  intros Hh Hmi Hs Hoh Hom. unfold iso_zone_text.
  replace ((if negative then "-" else "+") ++ pad 2 oh ++ ":" ++ pad 2 om)
    with (String (if negative then "-"%char else "+"%char) (pad 2 oh ++ ":" ++ pad 2 om))
    by (destruct negative; reflexivity).
  rewrite (parse_isoformat_time_signed h mi s negative _ oh om 0 0 Hh Hmi Hs
             (parse_offset_hh_mm oh om ltac:(lia) ltac:(lia))).
  rewrite (timezone_of_hours_minutes negative oh om Hoh Hom). reflexivity.
Qed.

Lemma parse_isoformat_time_designator h mi s z :
  0 <= h < 100 -> 0 <= mi < 100 -> 0 <= s < 100 -> iso_zone_in_range z ->
  parse_isoformat_time (time_text h mi s ++ iso_text (iso_zone_text z))
  = Return (h, mi, s, 0, iso_zone_offset z).
Proof.
  intros Hh Hmi Hs Hz. destruct z as [ | | negative oh om].
  - cbn [iso_zone_text iso_zone_offset]. change (iso_text "") with "".
    rewrite append_empty_r. apply parse_isoformat_time_naive; assumption.
  - change (iso_text (iso_zone_text Zulu)) with (iso_zone_text (Offset false 0 0)).
    apply (parse_isoformat_time_offset h mi s false 0 0); assumption || lia.
  - destruct Hz as [Hoh Hom].
    replace (iso_text (iso_zone_text (Offset negative oh om)))
      with (iso_zone_text (Offset negative oh om)).
    + apply parse_isoformat_time_offset; assumption.
    + unfold iso_zone_text. rewrite !iso_text_append, !iso_text_pad.
      destruct negative; reflexivity.
Qed.

Lemma isoformat_text_nonempty y mo d space h mi s z :
  isoformat_text y mo d space h mi s z <> "".
Proof.
  intros E. apply (f_equal String.length) in E. unfold isoformat_text in E.
  rewrite date_text_length in E. discriminate E.
Qed.

(** What the parser makes of the ISO 8601 forms. *)
Lemma fromisoformat_isoformat_text y mo d space h mi s z :
  check_fields (mk_datetime y mo d h mi s 0 None) = true ->
  iso_zone_in_range z ->
  fromisoformat (iso_text (isoformat_text y mo d space h mi s z))
  = Return (mk_datetime y mo d h mi s 0 (iso_zone_offset z)).
Proof.
  intros Hfields Hz.
  destruct (check_fields_bounds _ Hfields) as (Hy & Hmo & Hd & Hh & Hmi & Hs).
  cbn [year month day hour minute second] in *.
  assert (Htext : iso_text (isoformat_text y mo d space h mi s z)
                  = date_text y mo d
                    ++ String "T" (time_text h mi s ++ iso_text (iso_zone_text z))).
  { unfold isoformat_text.
    rewrite !iso_text_append, iso_text_date, iso_text_time.
    destruct space; reflexivity. }
  rewrite Htext, fromisoformat_date_then by lia.
  rewrite parse_isoformat_time_designator by (assumption || lia).
  cbn [bind]. unfold new_datetime.
  replace (check_fields (mk_datetime y mo d h mi s 0 (iso_zone_offset z))) with true
    by (rewrite <- Hfields; reflexivity).
  reflexivity.
Qed.

(** X7. A valid date and time written as [YYYY-MM-DD], a [T] or a space,
    [HH:MM:SS], and no zone, [Z], or an offset [+HH:MM] or [-HH:MM] of less
    than a day, is cleaned to the same date and time as
    [YYYY-MM-DD HH:MM:SS] followed by the offset as [%z] prints it; the
    clock fields are not converted to UTC. *)
Theorem clean_timestamp_isoformat (yf : year_format) (y mo d : Z) (space : bool)
    (h mi s : Z) (z : iso_zone) :
  check_fields (mk_datetime y mo d h mi s 0 None) = true ->
  iso_zone_in_range z ->
  clean_timestamp yf (VStr (isoformat_text y mo d space h mi s z))
  = Return (VStr (strftime yf (mk_datetime y mo d h mi s 0 (iso_zone_offset z)))).
Proof.
  intros Hfields Hz.
  rewrite clean_timestamp_text by apply isoformat_text_nonempty.
  rewrite (fromisoformat_isoformat_text y mo d space h mi s z Hfields Hz).
  reflexivity.
Qed.

Lemma clean_timestamp_isoformat_witness :
  clean_timestamp BareYear (VStr "2024-07-27 20:20:00-05:30")
  = Return (VStr "2024-07-27 20:20:00-0530").
Proof.
  apply (clean_timestamp_isoformat BareYear 2024 7 27 true 20 20 0 (Offset true 5 30)).
  - reflexivity.
  - simpl. lia.
Defined.

(** ** Timestamp cleaning: a date alone *)

(** X8. A valid date alone, [YYYY-MM-DD], is cleaned to midnight of that
    day without a zone. *)
Theorem clean_timestamp_date_only (yf : year_format) (y mo d : Z) :
  check_fields (mk_datetime y mo d 0 0 0 0 None) = true ->
  clean_timestamp yf (VStr (date_text y mo d))
  = Return (VStr (strftime yf (mk_datetime y mo d 0 0 0 0 None))).
Proof.
  intros Hfields.
  destruct (check_fields_bounds _ Hfields) as (Hy & Hmo & Hd & _).
  cbn [year month day] in *.
  rewrite clean_timestamp_text.
  2:{ intros E. apply (f_equal String.length) in E.
      rewrite <- (append_empty_r (date_text y mo d)), date_text_length in E.
      discriminate E. }
  rewrite iso_text_date, fromisoformat_date by lia.
  unfold new_datetime. rewrite Hfields. reflexivity.
Qed.

Lemma clean_timestamp_date_only_witness :
  clean_timestamp BareYear (VStr "2024-07-27") = Return (VStr "2024-07-27 00:00:00").
Proof. apply (clean_timestamp_date_only BareYear 2024 7 27). reflexivity. Defined.

(** ** Timestamp cleaning: what is returned *)







(** ** Integer cleaning: values a double holds exactly *)

Lemma digits2_pos_bounds p :
  2 ^ (Zpos (digits2_pos p) - 1) <= Zpos p < 2 ^ Zpos (digits2_pos p).
Proof.
  induction p as [p IH | p IH | ]; cbn [digits2_pos];
    [ rewrite Pos2Z.inj_succ | rewrite Pos2Z.inj_succ | simpl; lia ].
  all: replace (Z.succ (Zpos (digits2_pos p)) - 1) with (Z.succ (Zpos (digits2_pos p) - 1))
         by lia.
  all: rewrite !Z.pow_succ_r by lia; lia.
Qed.

Lemma iter_xO_value p k : Zpos (Pos.iter xO p k) = Zpos p * 2 ^ Zpos k.
Proof.
  induction k as [ | k IH] using Pos.peano_ind.
  - simpl. lia.
  - rewrite Pos.iter_succ, Pos2Z.inj_xO, IH, Pos2Z.inj_succ, Z.pow_succ_r by lia. lia.
Qed.

Lemma iter_xO_digits p k :
  Zpos (digits2_pos (Pos.iter xO p k)) = Zpos (digits2_pos p) + Zpos k.
Proof.
  induction k as [ | k IH] using Pos.peano_ind.
  - cbn [Pos.iter digits2_pos]. lia.
  - rewrite Pos.iter_succ. cbn [digits2_pos]. rewrite !Pos2Z.inj_succ, IH. lia.
Qed.

(** A mantissa of 53 bits with an exponent in range is its own rounding. *)
Lemma binary_round_aux_canonical sx m e :
  Zpos (digits2_pos m) = 53 -> -1074 <= e <= 971 ->
  binary_round_aux prec emax sx (Zpos m) e loc_Exact = S754_finite sx m e.
Proof.
  intros Hd He.
  assert (Hshr : forall l,
             shr_fexp prec emax (Zpos m) e l = (shr_record_of_loc (Zpos m) l, e)).
  { intros l. unfold shr_fexp, Zdigits2, fexp, emin, prec, emax. rewrite Hd.
    replace (Z.max (53 + e - 53) (3 - 1024 - 53) - e) with 0 by lia. reflexivity. }
  unfold binary_round_aux. rewrite Hshr.
  cbn [shr_record_of_loc shr_m loc_of_shr_record round_nearest_even].
  rewrite Hshr. cbn [shr_record_of_loc shr_m].
  replace (e <=? emax - prec) with true
    by (symmetry; apply Z.leb_le; unfold emax, prec; lia).
  reflexivity.
Qed.

(** Below 2^53 the rounding of [float(int)] only shifts the number left. *)
Lemma binary_round_small sx p :
  Zpos p < 2 ^ 53 ->
  exists m e, binary_round prec emax sx p 0 = S754_finite sx m e
              /\ - 52 <= e <= 0 /\ Zpos m = Zpos p * 2 ^ (- e).
Proof.
  intros Hp. pose proof (digits2_pos_bounds p) as [Hlo _].
  assert (Hd : Zpos (digits2_pos p) <= 53).
  { destruct (Z_le_gt_dec (Zpos (digits2_pos p)) 53) as [H | H]; [exact H | exfalso].
    assert (2 ^ 53 <= 2 ^ (Zpos (digits2_pos p) - 1)) by (apply Z.pow_le_mono_r; lia).
    lia. }
  unfold binary_round, shl_align, fexp, emin.
  replace (Z.max (Zpos (digits2_pos p) + 0 - prec) (3 - emax - prec) - 0)
    with (Zpos (digits2_pos p) - 53) by (unfold prec, emax; lia).
  replace (Z.max (Zpos (digits2_pos p) + 0 - prec) (3 - emax - prec))
    with (Zpos (digits2_pos p) - 53) by (unfold prec, emax; lia).
  destruct (Zpos (digits2_pos p) - 53) as [ | k | k] eqn:Ek; [ | lia | ].
  - exists p, 0. rewrite binary_round_aux_canonical by lia.
    repeat split; try lia.
  - exists (Pos.iter xO p k), (Zneg k).
    rewrite binary_round_aux_canonical by (rewrite ?iter_xO_digits; lia).
    repeat split; try lia. rewrite iter_xO_value. reflexivity.
Qed.

Lemma py_int_shifted sx m e n :
  e <= 0 -> Zpos m = n * 2 ^ (- e) ->
  py_int (S754_finite sx m e) = Return (if sx then - n else n).
Proof.
  intros He Hm. unfold py_int.
  assert (Hpow : 0 < 2 ^ (- e)) by (apply Z.pow_pos_nonneg; lia).
  assert (Ha : (if 0 <=? e then Zpos m * 2 ^ e else Zpos m / 2 ^ (- e)) = n).
  { destruct (Z.leb_spec 0 e) as [H0 | H0].
    - assert (e = 0) by lia. subst e. simpl in Hm. rewrite Hm. simpl. lia.
    - rewrite Hm. apply Z.div_mul. lia. }
  rewrite Ha. reflexivity.
Qed.

(** [int(float(n))] is [n] for every integer of magnitude up to 2^53. *)
Lemma py_int_binary_normalize n :
  Z.abs n <= 2 ^ 53 -> py_int (binary_normalize prec emax n 0 false) = Return n.
Proof.
  intros Hn. unfold binary_normalize.
  destruct n as [ | p | p]; [reflexivity | | ].
  - destruct (Z.eq_dec (Zpos p) (2 ^ 53)) as [E | E].
    + injection E as ->. vm_compute. reflexivity.
    + destruct (binary_round_small false p) as (m & e & -> & He & Hm); [simpl in Hn; lia | ].
      apply (py_int_shifted false m e (Zpos p)); [lia | exact Hm].
  - destruct (Z.eq_dec (Zpos p) (2 ^ 53)) as [E | E].
    + injection E as ->. vm_compute. reflexivity.
    + destruct (binary_round_small true p) as (m & e & -> & He & Hm); [simpl in Hn; lia | ].
      apply (py_int_shifted true m e (Zpos p)); [lia | exact Hm].
Qed.

Lemma float_of_int_small n :
  Z.abs n <= 2 ^ 53 -> float_of_int n = Return (binary_normalize prec emax n 0 false).
Proof.
  intros Hn. pose proof (py_int_binary_normalize n Hn) as H. unfold float_of_int.
  destruct (binary_normalize prec emax n 0 false); try reflexivity. discriminate H.
Qed.

Lemma clean_integer_of_exact v f n :
  v <> VNone -> py_float v = Return f -> py_int f = Return n -> Z.abs n <= 2 ^ 53 ->
  clean_integer v = Return (VInt n).
Proof.
  intros Hv Hf Hn Hsmall. unfold clean_integer.
  rewrite Hf. cbn [bind]. rewrite Hn. cbn [bind except_Value_Type].
  replace ((- 2 ^ 63 <=? n) && (n <=? 2 ^ 63 - 1)) with true
    by (symmetry; apply andb_true_iff; split; apply Z.leb_le; lia).
  destruct v; try reflexivity. contradiction.
Qed.

(** *** Text made of digits *)

Lemma digit_is_not c x : is_digit c = true -> is_digit x = false -> Ascii.eqb c x = false.
Proof.
  intros Hc Hx. destruct (Ascii.eqb_spec c x) as [-> | _]; [congruence | reflexivity].
Qed.

Lemma digit_is_not_space c : is_digit c = true -> is_space c = false.
Proof.
  unfold is_digit, is_space. intros H.
  apply andb_true_iff in H. destruct H as [Hlo Hhi]. apply Z.leb_le in Hlo, Hhi.
  apply orb_false_iff. split; [apply Z.eqb_neq; lia | ].
  apply andb_false_iff. right. apply Z.leb_gt. lia.
Qed.

Lemma drop_underscores_digits s : forall prev,
  all_digits s = true -> Ascii.eqb prev "_" = false ->
  drop_underscores prev s = Some s.
Proof.
  induction s as [ | c t IH]; intros prev Hall Hprev; cbn [drop_underscores].
  - rewrite Hprev. reflexivity.
  - cbn [all_digits] in Hall. apply andb_true_iff in Hall. destruct Hall as [Hc Ht].
    rewrite (digit_is_not c "_" Hc eq_refl), Hprev, Hc.
    cbn [andb negb]. rewrite (IH c Ht (digit_is_not c "_" Hc eq_refl)). reflexivity.
Qed.

Lemma lstrip_digits s : all_digits s = true -> lstrip s = s.
Proof.
  destruct s as [ | c t]; [reflexivity | ].
  cbn [all_digits lstrip]. intros H. apply andb_true_iff in H. destruct H as [Hc _].
  rewrite (digit_is_not_space c Hc). reflexivity.
Qed.

Lemma all_digits_rev_onto s : forall acc,
  all_digits (string_rev_onto s acc) = all_digits s && all_digits acc.
Proof.
  induction s as [ | c t IH]; intros acc; [reflexivity | ].
  cbn [string_rev_onto all_digits]. rewrite IH. cbn [all_digits].
  destruct (is_digit c), (all_digits t); reflexivity.
Qed.

Lemma string_rev_onto_twice s : forall acc acc',
  string_rev_onto (string_rev_onto s acc) acc' = string_rev_onto acc (s ++ acc').
Proof.
  induction s as [ | c t IH]; intros acc acc'; [reflexivity | ].
  cbn [string_rev_onto append]. rewrite IH. reflexivity.
Qed.

Lemma strip_digits s : all_digits s = true -> strip s = s.
Proof.
  intros H. unfold strip, string_rev.
  rewrite (lstrip_digits s H), lstrip_digits
    by (rewrite all_digits_rev_onto, H; reflexivity).
  rewrite string_rev_onto_twice. cbn [string_rev_onto]. apply append_empty_r.
Qed.

Lemma span_digits_all s : all_digits s = true -> span_digits s = (s, "").
Proof.
  induction s as [ | c t IH]; [reflexivity | ].
  cbn [all_digits span_digits]. intros H. apply andb_true_iff in H. destruct H as [Hc Ht].
  rewrite Hc, (IH Ht). reflexivity.
Qed.

(** [float] reads a run of digits as the integer it spells. *)
Lemma float_of_digits s :
  all_digits s = true -> s <> "" ->
  float_of_string s = Return (binary_normalize prec emax (digits_value 0 s) 0 false).
Proof.
  intros Hall Hne. unfold float_of_string.
  rewrite (drop_underscores_digits s " " Hall eq_refl), (strip_digits s Hall).
  destruct s as [ | c t]; [contradiction | ].
  assert (Hc : is_digit c = true)
    by (cbn [all_digits] in Hall; apply andb_true_iff in Hall; apply Hall).
  cbn [take_sign].
  rewrite (digit_is_not c "-" Hc eq_refl), (digit_is_not c "+" Hc eq_refl).
  unfold parse_decimal. rewrite (span_digits_all _ Hall), append_empty_r.
  cbn [String.length Z.of_nat Z.opp].
  pose proof (digits_value_nonneg (String c t) 0 Hall ltac:(lia)) as Hpos.
  unfold float_of_decimal, binary_normalize.
  destruct (digits_value 0 (String c t)) as [ | p | p]; [reflexivity | | lia].
  change (0 <=? 0) with true. change (10 ^ 0) with 1. cbv iota.
  rewrite Z.mul_1_r. reflexivity.
Qed.

(** ** Integer cleaning: what comes back *)

(** X9. An integer of magnitude up to 2^53 is returned unchanged by
    [clean_integer]: the detour through [float] loses nothing. *)
Theorem clean_integer_int_exact (n : Z) :
  Z.abs n <= 2 ^ 53 -> clean_integer (VInt n) = Return (VInt n).
Proof.
  intros Hn.
  apply (clean_integer_of_exact (VInt n) (binary_normalize prec emax n 0 false));
    [discriminate | exact (float_of_int_small n Hn)
    | exact (py_int_binary_normalize n Hn) | exact Hn].
Qed.

Lemma clean_integer_int_exact_witness :
  clean_integer (VInt (- 9007199254740992)) = Return (VInt (- 9007199254740992)).
Proof. apply (clean_integer_int_exact (- 9007199254740992)). vm_compute. discriminate. Defined.

(** Past 2^53 the detour through [float] rounds. *)
Lemma clean_integer_rounds_past_2_53 :
  clean_integer (VInt (2 ^ 53 + 1)) = Return (VInt (2 ^ 53)).
Proof. vm_compute. reflexivity. Qed.

(** X10. Text made of ASCII digits that spells a number up to 2^53 is
    cleaned to that number, leading zeros included. *)
Theorem clean_integer_digit_text (s : string) :
  all_digits s = true -> s <> "" -> digits_value 0 s <= 2 ^ 53 ->
  clean_integer (VStr s) = Return (VInt (digits_value 0 s)).
Proof.
  intros Hall Hne Hsmall.
  pose proof (digits_value_nonneg s 0 Hall ltac:(lia)) as Hpos.
  assert (Habs : Z.abs (digits_value 0 s) <= 2 ^ 53) by lia.
  apply (clean_integer_of_exact (VStr s)
           (binary_normalize prec emax (digits_value 0 s) 0 false));
    [discriminate | exact (float_of_digits s Hall Hne)
    | exact (py_int_binary_normalize _ Habs) | exact Habs].
Qed.

Lemma clean_integer_digit_text_witness :
  clean_integer (VStr "0009007199254740992") = Return (VInt 9007199254740992).
Proof.
  apply (clean_integer_digit_text "0009007199254740992").
  - reflexivity.
  - discriminate.
  - vm_compute. discriminate.
Defined.

(** X11. [clean_integer] ends in one of three ways: it returns [None], it
    returns an integer of the signed 64-bit range, or it raises
    [OverflowError]; the last happens exactly when [float(value)] raises
    [OverflowError] or is infinite. *)
Theorem clean_integer_outcomes (v : value) :
  match clean_integer v with
  | Return VNone => True
  | Return (VInt n) => - 2 ^ 63 <= n <= 2 ^ 63 - 1
  | Return _ => False
  | Raise e =>
      e = OverflowError
      /\ (py_float v = Raise OverflowError \/ exists s, py_float v = Return (S754_infinity s))
  end.
Proof.
  destruct (clean_integer v) as [r | e] eqn:E.
  - assert (Hbody : forall m : outcome value,
               (forall x, m = Return x ->
                          match x with
                          | VNone => True
                          | VInt n => - 2 ^ 63 <= n <= 2 ^ 63 - 1
                          | _ => False
                          end) ->
               except_Value_Type m VNone = Return r ->
               match r with
               | VNone => True
               | VInt n => - 2 ^ 63 <= n <= 2 ^ 63 - 1
               | _ => False
               end).
    { intros [x | [ | | | ]] Hm H; cbn [except_Value_Type] in H;
        try discriminate H; injection H as <-; [apply Hm; reflexivity | exact I | exact I]. }
    assert (Hrange : forall x,
               (f <- py_float v ;;
                val <- py_int f ;;
                Return (if (- 2 ^ 63 <=? val) && (val <=? 2 ^ 63 - 1)
                        then VInt val else VNone)) = Return x ->
               match x with
               | VNone => True
               | VInt n => - 2 ^ 63 <= n <= 2 ^ 63 - 1
               | _ => False
               end).
    { intros x H. invert_return.
      destruct (_ && _) eqn:R; [ | exact I].
      apply andb_true_iff in R. destruct R as [Rlo Rhi].
      apply Z.leb_le in Rlo, Rhi. lia. }
    unfold clean_integer in E.
    destruct v; exact (Hbody _ Hrange E).
  - split; [exact (clean_integer_raises_only_OverflowError v e E) | ].
    apply clean_integer_raises_iff. exists e. exact E.
Qed.

(** ** Cleaning the rows of a table *)

Lemma clean_row_cells yf names : forall row out,
  clean_row yf names row = Return out -> cleaned_cells yf names row out.
Proof.
  unfold cleaned_cells.
  induction names as [ | name names IH]; intros row out H.
  - injection H as <-. constructor.
  - destruct row as [ | v vs]; cbn [clean_row combine] in *.
    + injection H as <-. constructor.
    + invert_return. constructor; [assumption | apply IH; assumption].
Qed.

Lemma clean_rows_cells yf names rows : forall out,
  clean_rows yf names rows = Return out -> Forall2 (cleaned_cells yf names) rows out.
Proof.
  induction rows as [ | row rows IH]; intros out H; cbn [clean_rows] in H.
  - injection H as <-. constructor.
  - invert_return. constructor; [apply clean_row_cells; assumption | apply IH; assumption].
Qed.

Lemma Forall2_nth_error {A B : Type} (R : A -> B -> Prop) l l' :
  Forall2 R l l' ->
  forall i a, nth_error l i = Some a -> exists b, nth_error l' i = Some b /\ R a b.
Proof.
  induction 1 as [ | a0 b0 l l' HR _ IH]; intros i a Hi.
  - destruct i; discriminate Hi.
  - destruct i as [ | i]; cbn [nth_error] in *.
    + injection Hi as <-. eauto.
    + apply IH. exact Hi.
Qed.

Lemma nth_error_combine {A B : Type} (l : list A) (l' : list B) : forall j a b,
  nth_error l j = Some a -> nth_error l' j = Some b ->
  nth_error (combine l l') j = Some (a, b).
Proof.
  revert l'. induction l as [ | x l IH]; intros l' j a b Ha Hb.
  - destruct j; discriminate Ha.
  - destruct l' as [ | y l']; [destruct j; discriminate Hb | ].
    destruct j as [ | j]; cbn [nth_error combine] in *.
    + congruence.
    + apply IH; assumption.
Qed.

(** Every cell of the output is the cleaning of the cell at the same place
    of the input. *)
Lemma clean_rows_cell yf names rows out i row j name v :
  clean_rows yf names rows = Return out ->
  nth_error rows i = Some row -> nth_error names j = Some name ->
  nth_error row j = Some v ->
  exists row' v', nth_error out i = Some row' /\ nth_error row' j = Some v'
                  /\ clean_cell yf name v = Return v'.
Proof.
  intros Hout Hi Hname Hv.
  destruct (Forall2_nth_error _ _ _ (clean_rows_cells yf names rows out Hout) i row Hi)
    as (row' & Hrow' & Hcells).
  destruct (Forall2_nth_error _ _ _ Hcells j (name, v) (nth_error_combine _ _ _ _ _ Hname Hv))
    as (v' & Hv' & Hclean).
  exists row', v'. auto.
Qed.

(** X12. Cleaning keeps the number of rows, and every cleaned row has as
    many cells as the shorter of the column list and the row. *)
Theorem clean_rows_shape (yf : year_format) (names : list string)
    (rows out : list (list value)) :
  clean_rows yf names rows = Return out ->
  Forall2 (fun row row' =>
             List.length row' = Nat.min (List.length names) (List.length row))
    rows out.
Proof.
  intros H. apply clean_rows_cells in H.
  induction H as [ | row row' rows out Hrow _ IH]; constructor; [ | exact IH].
  apply Forall2_length in Hrow. rewrite <- Hrow. apply length_combine.
Qed.

Lemma clean_rows_shape_witness :
  Forall2 (fun row row' => List.length row' = Nat.min 2 (List.length row))
    [[VInt 1; VStr "x"; VNone]; [VInt 2]] [[VInt 1; VStr "x"]; [VInt 2]].
Proof.
  apply (clean_rows_shape BareYear ["company_id"; "name"]
           [[VInt 1; VStr "x"; VNone]; [VInt 2]] [[VInt 1; VStr "x"]; [VInt 2]]).
  vm_compute. reflexivity.
Defined.

(** X13. Cleaning leaves in place every cell that is [None], every cell
    of a column under no rule, and every cell of a timestamp column that is
    not text. *)
Theorem clean_rows_untouched (yf : year_format) (names : list string)
    (rows out : list (list value)) (i j : nat) (row : list value) (name : string)
    (v : value) :
  clean_rows yf names rows = Return out ->
  nth_error rows i = Some row -> nth_error names j = Some name ->
  nth_error row j = Some v ->
  v = VNone \/ rule_for name = PassThrough
  \/ (rule_for name = TimestampRule /\ forall s, v <> VStr s) ->
  exists row', nth_error out i = Some row' /\ nth_error row' j = Some v.
Proof.
  intros Hout Hi Hname Hv Hcase.
  destruct (clean_rows_cell yf names rows out i row j name v Hout Hi Hname Hv)
    as (row' & v' & Hrow' & Hv' & Hclean).
  exists row'. split; [exact Hrow' | ].
  enough (v' = v) as <- by exact Hv'.
  unfold clean_cell in Hclean.
  destruct Hcase as [-> | [Hrule | [Hrule Hstr]]].
  - destruct (rule_for name); cbn in Hclean; congruence.
  - rewrite Hrule in Hclean. congruence.
  - rewrite Hrule in Hclean.
    destruct v as [ | n | f | s | b | ]; cbn in Hclean; congruence.
Qed.

Lemma clean_rows_untouched_witness :
  exists row',
    nth_error [[VInt 7; VInt 1700000000]] 0 = Some row'
    /\ nth_error row' 1 = Some (VInt 1700000000).
Proof.
  apply (clean_rows_untouched BareYear ["company_id"; "last_updated"]
           [[VInt 7; VInt 1700000000]] [[VInt 7; VInt 1700000000]]
           0 1 [VInt 7; VInt 1700000000] "last_updated" (VInt 1700000000)).
  - vm_compute. reflexivity.
  - reflexivity.
  - reflexivity.
  - reflexivity.
  - right. right. split; [vm_compute; reflexivity | intros s; discriminate].
Defined.

(** ** Text in a column under the integer rule *)

(** X14. In a column whose name contains [shares] or [id] and has neither
    timestamp suffix, text that [float] cannot read is replaced by [None]. *)
Theorem integer_rule_nulls_text (yf : year_format) (name s : string) :
  contains "shares" name = true \/ contains "id" name = true ->
  endswith name "_updated" = false -> endswith name "_date" = false ->
  float_of_string s = Raise ValueError ->
  clean_cell yf name (VStr s) = Return VNone.
Proof.
  intros Hsub Hupdated Hdate Hfloat. unfold clean_cell, rule_for.
  rewrite Hupdated, Hdate. cbn [orb].
  replace (contains "shares" name || contains "id" name) with true
    by (symmetry; apply orb_true_iff; exact Hsub).
  unfold clean_integer. cbn [py_float]. rewrite Hfloat. reflexivity.
Qed.

Lemma integer_rule_nulls_text_witness :
  clean_cell BareYear "provider" (VStr "Acme Mining") = Return VNone.
Proof.
  apply (integer_rule_nulls_text BareYear "provider" "Acme Mining").
  - right. reflexivity.
  - reflexivity.
  - reflexivity.
  - vm_compute. reflexivity.
Defined.

(** ** When the run stops *)

Lemma raises_bind {A B : Type} (m : outcome A) (k : A -> outcome B) :
  raises (bind m k) <-> raises m \/ exists a, m = Return a /\ raises (k a).
Proof.
  unfold raises. destruct m as [a | e]; cbn [bind]; split.
  - intros H. right. exists a. auto.
  - intros [[e H] | (a' & Ha & H)]; [discriminate H | ]. injection Ha as <-. exact H.
  - intros _. left. eauto.
  - intros _. eauto.
Qed.

Lemma raises_Return {A : Type} (a : A) : raises (Return a) <-> False.
Proof. unfold raises. split; [intros [e H]; discriminate H | contradiction]. Qed.

Lemma returns_or_raises {A : Type} (m : outcome A) : (exists a, m = Return a) \/ raises m.
Proof. destruct m as [a | e]; [left | right; unfold raises]; eauto. Qed.

Lemma clean_cell_raises yf name v :
  raises (clean_cell yf name v) <->
  rule_for name = IntegerRule /\ clean_integer v = Raise OverflowError.
Proof.
  unfold clean_cell, raises. split.
  - intros [e H]. destruct (rule_for name).
    + destruct (clean_timestamp_returns yf v) as [r Hr]. congruence.
    + split; [reflexivity | ].
      rewrite H. f_equal. exact (clean_integer_raises_only_OverflowError v e H).
    + discriminate H.
  - intros [-> H]. eauto.
Qed.

Lemma clean_row_raises yf names : forall row,
  raises (clean_row yf names row) <->
  exists j name v,
    nth_error names j = Some name /\ nth_error row j = Some v
    /\ raises (clean_cell yf name v).
Proof.
  induction names as [ | name names IH]; intros row.
  - cbn [clean_row]. rewrite raises_Return. split; [contradiction | ].
    intros (j & n & v & Hj & _). destruct j; discriminate Hj.
  - destruct row as [ | v vs]; cbn [clean_row].
    + rewrite raises_Return. split; [contradiction | ].
      intros (j & n & v & _ & Hj & _). destruct j; discriminate Hj.
    + rewrite raises_bind. split.
      * intros [H | (v' & Hv' & H)].
        -- exists 0%nat, name, v. auto.
        -- apply raises_bind in H. destruct H as [H | (rest & _ & H)];
             [ | apply raises_Return in H; contradiction].
           apply IH in H. destruct H as (j & n & w & Hn & Hw & H).
           exists (S j), n, w. auto.
      * intros (j & n & w & Hn & Hw & H).
        destruct j as [ | j]; cbn [nth_error] in Hn, Hw.
        -- injection Hn as <-. injection Hw as <-. left. exact H.
        -- destruct (returns_or_raises (clean_cell yf name v)) as [[v' Hv'] | Hr];
             [right | left; exact Hr].
           exists v'. split; [exact Hv' | ].
           apply raises_bind. left. apply IH. exists j, n, w. auto.
Qed.

Lemma clean_rows_raises yf names rows :
  raises (clean_rows yf names rows) <->
  exists row, In row rows /\ raises (clean_row yf names row).
Proof.
  induction rows as [ | row rows IH]; cbn [clean_rows].
  - rewrite raises_Return. split; [contradiction | intros (r & [] & _)].
  - rewrite raises_bind. split.
    + intros [H | (row' & _ & H)].
      * exists row. split; [left; reflexivity | exact H].
      * apply raises_bind in H. destruct H as [H | (rest & _ & H)];
          [ | apply raises_Return in H; contradiction].
        apply IH in H. destruct H as (r & Hin & H). exists r. split; [right | ]; assumption.
    + intros (r & [<- | Hin] & H); [left; exact H | ].
      destruct (returns_or_raises (clean_row yf names row)) as [[row' Hrow'] | Hr];
        [right | left; exact Hr].
      exists row'. split; [exact Hrow' | ].
      apply raises_bind. left. apply IH. exists r. auto.
Qed.

Lemma clean_rows_raises_cell yf names rows :
  raises (clean_rows yf names rows) <->
  exists row j name v,
    In row rows /\ nth_error names j = Some name /\ nth_error row j = Some v
    /\ rule_for name = IntegerRule /\ clean_integer v = Raise OverflowError.
Proof.
  rewrite clean_rows_raises. split.
  - intros (row & Hrow & H). apply clean_row_raises in H.
    destruct H as (j & name & v & Hname & Hv & H).
    apply clean_cell_raises in H. destruct H as [Hrule H].
    exists row, j, name, v. auto.
  - intros (row & j & name & v & Hrow & Hname & Hv & Hrule & H).
    exists row. split; [exact Hrow | ].
    apply clean_row_raises. exists j, name, v. repeat split; try assumption.
    apply clean_cell_raises. auto.
Qed.

Lemma clean_rows_only_OverflowError yf names rows e :
  clean_rows yf names rows = Raise e -> e = OverflowError.
Proof.
  assert (Hcell : forall name v e', clean_cell yf name v = Raise e' -> e' = OverflowError).
  { intros name v e' H. unfold clean_cell in H. destruct (rule_for name).
    - destruct (clean_timestamp_returns yf v) as [r Hr]. congruence.
    - exact (clean_integer_raises_only_OverflowError v e' H).
    - discriminate H. }
  assert (Hrow : forall row e', clean_row yf names row = Raise e' -> e' = OverflowError).
  { induction names as [ | name names IH]; intros row e' H; [discriminate H | ].
    destruct row as [ | v vs]; [discriminate H | ]. cbn [clean_row] in H.
    destruct (clean_cell yf name v) as [v' | e''] eqn:Ev; cbn [bind] in H.
    - destruct (clean_row yf names vs) as [r | e''] eqn:Er; cbn [bind] in H;
        [discriminate H | ].
      injection H as <-. exact (IH vs e'' Er).
    - injection H as <-. exact (Hcell name v e'' Ev). }
  revert e. induction rows as [ | row rows IH]; intros e H; [discriminate H | ].
  cbn [clean_rows] in H.
  destruct (clean_row yf names row) as [r | e'] eqn:Er; cbn [bind] in H.
  - destruct (clean_rows yf names rows) as [rs | e'] eqn:Ers; cbn [bind] in H;
      [discriminate H | ].
    injection H as <-. exact (IH e' eq_refl).
  - injection H as <-. exact (Hrow row e' Er).
Qed.

(** A turn of the table loop raises [OverflowError] only out of the
    cleaning of rows it has read. *)
Lemma export_table_overflows yf root db st table :
  export_table yf root db st table = Raise OverflowError ->
  exists columns rows,
    table_info db table = Some columns /\ select_all db table = Some rows
    /\ raises (clean_rows yf (map col_name columns) rows).
Proof.
  unfold export_table. intros H.
  destruct (table_info db table) as [columns | ]; cbn [fetchall bind] in H;
    [ | discriminate H].
  destruct (select_all db table) as [rows | ]; cbn [fetchall bind] in H;
    [ | discriminate H].
  exists columns, rows. repeat split.
  destruct (clean_rows yf (map col_name columns) rows) as [cleaned | e] eqn:E;
    cbn [bind] in H; [discriminate H | ].
  exists e. reflexivity.
Qed.

Lemma export_table_stops yf root db st table columns rows :
  table_info db table = Some columns -> select_all db table = Some rows ->
  raises (clean_rows yf (map col_name columns) rows) ->
  raises (export_table yf root db st table).
Proof.
  intros Hc Hr [e He]. unfold export_table. rewrite Hc, Hr. cbn [fetchall bind].
  rewrite He. exists e. reflexivity.
Qed.

Lemma export_tables_overflows yf root db tables : forall st,
  export_tables yf root db st tables = Raise OverflowError ->
  exists table st', In table tables
                    /\ export_table yf root db st' table = Raise OverflowError.
Proof.
  induction tables as [ | t rest IH]; intros st H; [discriminate H | ].
  cbn [export_tables] in H.
  destruct (export_table yf root db st t) as [st' | e] eqn:Et; cbn [bind] in H.
  - destruct (IH st' H) as (table & st'' & Hin & Hraise).
    exists table, st''. split; [right; exact Hin | exact Hraise].
  - injection H as ->. exists t, st. split; [left; reflexivity | exact Et].
Qed.

Lemma export_tables_stops yf root db tables table :
  In table tables -> (forall st, raises (export_table yf root db st table)) ->
  forall st, raises (export_tables yf root db st tables).
Proof.
  intros Hin Hraise.
  induction tables as [ | t rest IH]; intros st; [contradiction | ].
  cbn [export_tables]. apply raises_bind.
  destruct (returns_or_raises (export_table yf root db st t)) as [[st' Hst'] | Hr];
    [right | left; exact Hr].
  exists st'. split; [exact Hst' | ].
  destruct Hin as [-> | Hin].
  - destruct (Hraise st) as [e He]. congruence.
  - apply IH. exact Hin.
Qed.

(** X15. Cleaning the rows of a table raises exactly when one of its cells
    sits in a column under the integer rule and makes [clean_integer] raise,
    and what it raises is [OverflowError].  A run over a database with such
    a cell in a processed table does not finish, and a run raises
    [OverflowError] only over such a database. *)
Theorem run_stops_on_overflow (yf : year_format) (now : datetime) (root : string)
    (db : database) :
  (forall names rows,
      (exists e, clean_rows yf names rows = Raise e) <->
      exists row j name v,
        In row rows /\ nth_error names j = Some name /\ nth_error row j = Some v
        /\ rule_for name = IntegerRule /\ clean_integer v = Raise OverflowError)
  /\ (forall names rows e, clean_rows yf names rows = Raise e -> e = OverflowError)
  /\ (overflowing_cell db -> exists e, run yf now root db = Raise e)
  /\ (run yf now root db = Raise OverflowError -> overflowing_cell db).
Proof.
  split; [exact (clean_rows_raises_cell yf) | ].
  split; [exact (clean_rows_only_OverflowError yf) | ].
  split.
  - intros (table & columns & rows & row & j & name & v
            & Hin & Hc & Hr & Hrow & Hname & Hv & Hrule & H).
    unfold run. apply raises_bind. left.
    apply (export_tables_stops yf root db _ table Hin).
    intros st. apply (export_table_stops yf root db st table columns rows Hc Hr).
    apply clean_rows_raises_cell. exists row, j, name, v. auto.
  - unfold run. intros H.
    destruct (export_tables yf root db initial_state (list_tables db)) as [st | e] eqn:E;
      cbn [bind] in H; [discriminate H | ].
    injection H as ->.
    apply export_tables_overflows in E. destruct E as (table & st' & Hin & E).
    apply export_table_overflows in E. destruct E as (columns & rows & Hc & Hr & E).
    apply clean_rows_raises_cell in E.
    destruct E as (row & j & name & v & Hrow & Hname & Hv & Hrule & H).
    exists table, columns, rows, row, j, name, v. auto 10.
Qed.

(** ** The exported files *)

Lemma export_tables_files yf root db tables : forall st st',
  export_tables yf root db st tables = Return st' ->
  exists files,
    csv_files st' = (csv_files st ++ files)%list
    /\ Forall2 (exported_file_of yf root db) tables files.
Proof.
  induction tables as [ | t rest IH]; intros st st' H; cbn [export_tables] in H.
  - injection H as <-. exists []. rewrite app_nil_r. split; [reflexivity | constructor].
  - destruct (export_table yf root db st t) as [st1 | e] eqn:E; cbn [bind] in H;
      [ | discriminate H].
    apply export_table_returns in E.
    destruct E as (columns & rows & cleaned_rows & Hc & Hr & Hclean & ->).
    apply IH in H. destruct H as (files & Hfiles & Hall). cbn [csv_files] in Hfiles.
    exists (mk_csv (csv_path_of root t) (map col_name columns) cleaned_rows :: files).
    split; [rewrite Hfiles, <- app_assoc; reflexivity | ].
    constructor; [ | exact Hall].
    exists columns, rows. cbn [csv_path csv_header csv_rows]. auto.
Qed.

(** X16. A finished run has written one file per processed table, in
    processing order: its path is the CSV path of the table, its header the
    column names of the table, and its rows the cleaned rows of the table. *)
Theorem run_exports_one_file_per_table (yf : year_format) (now : datetime)
    (root : string) (db : database) (a : artifacts) :
  run yf now root db = Return a ->
  Forall2 (exported_file_of yf root db) (list_tables db) (exported a).
Proof.
  unfold run. intros H.
  destruct (export_tables yf root db initial_state (list_tables db)) as [st | e] eqn:E;
    cbn [bind] in H; [ | discriminate H].
  injection H as <-. cbn [exported].
  apply export_tables_files in E. destruct E as (files & -> & Hall). exact Hall.
Qed.

Lemma run_exports_one_file_per_table_witness :
  let db :=
    mk_database ["financials"; "sqlite_sequence"; "companies"]
      (fun _ => Some [mk_column "company_id" "INTEGER" 0 None 1])
      (fun _ => Some [[VStr "7"]]) in
  let now := mk_datetime 2024 7 27 20 20 0 0 None in
  exists a,
    run BareYear now "/srv/gold-silver-analysis-v2" db = Return a
    /\ Forall2 (exported_file_of BareYear "/srv/gold-silver-analysis-v2" db)
         ["companies"; "financials"] (exported a).
Proof.
  intros db now. eexists. split; [vm_compute; reflexivity | ].
  apply (run_exports_one_file_per_table BareYear now "/srv/gold-silver-analysis-v2" db).
  vm_compute. reflexivity.
Defined.

(** ** Load script: a table made of key columns *)

Lemma filter_none {A : Type} (f : A -> bool) (l : list A) :
  (forall x, In x l -> f x = false) -> filter f l = [].
Proof.
  induction l as [ | x t IH]; intros H; [reflexivity | ].
  cbn [filter]. rewrite (H x (or_introl eq_refl)).
  apply IH. intros y Hy. apply H. right. exact Hy.
Qed.

(** X17. For a table whose columns are all named in [pk_columns], the
    upsert statement has nothing after [DO UPDATE SET]. *)
Theorem upsert_sql_without_other_columns (table : string) (columns : list column_info) :
  (forall col, In col columns -> In (col_name col) (pk_columns_of columns)) ->
  upsert_sql table columns
  = nl ++ "        INSERT INTO " ++ table
    ++ nl ++ "        SELECT * FROM staging_" ++ table
    ++ nl ++ "        ON CONFLICT (" ++ join ", " (pk_columns_of columns)
    ++ ") DO UPDATE SET"
    ++ nl ++ "        ;" ++ nl ++ "        ".
Proof.
  intros Hall. unfold upsert_sql.
  rewrite (filter_none _ columns); [reflexivity | ].
  intros col Hin. apply negb_false_iff, existsb_eqb_In, Hall, Hin.
Qed.

Lemma upsert_sql_without_other_columns_witness :
  upsert_sql "tags" [mk_column "tag" "TEXT" 1 None 1]
  = nl ++ "        INSERT INTO tags"
    ++ nl ++ "        SELECT * FROM staging_tags"
    ++ nl ++ "        ON CONFLICT (tag) DO UPDATE SET"
    ++ nl ++ "        ;" ++ nl ++ "        ".
Proof.
  apply (upsert_sql_without_other_columns "tags" [mk_column "tag" "TEXT" 1 None 1]).
  intros col [<- | []]. left. reflexivity.
Defined.

(** ** Schema file: the closing section *)



(** ** Load script: what the text contains *)

Lemma occurs_in_self x : occurs_in x x.
Proof. exists "", "". cbn [append]. symmetry. apply append_empty_r. Qed.

Lemma occurs_in_append_l x a b : occurs_in x a -> occurs_in x (a ++ b).
Proof.
  intros (pre & post & ->). exists pre, (post ++ b). rewrite !append_assoc. reflexivity.
Qed.

Lemma occurs_in_append_r x a b : occurs_in x b -> occurs_in x (a ++ b).
Proof.
  intros (pre & post & ->). exists (a ++ pre), post. rewrite !append_assoc. reflexivity.
Qed.

Lemma join_contains sep x l : In x l -> occurs_in x (join sep l).
Proof.
  induction l as [ | y t IH]; intros Hin; [contradiction | ].
  destruct t as [ | z t].
  - destruct Hin as [-> | []]. apply occurs_in_self.
  - change (join sep (y :: z :: t)) with (y ++ sep ++ join sep (z :: t)).
    destruct Hin as [-> | Hin].
    + apply occurs_in_append_l, occurs_in_self.
    + do 2 apply occurs_in_append_r. apply IH, Hin.
Qed.

(** X19. Every column that is not named in [pk_columns], a key column past
    position 1 included, is assigned from [EXCLUDED] by the upsert. *)
Theorem upsert_sql_assigns_other_columns (table : string) (columns : list column_info)
    (col : column_info) :
  In col columns -> ~ In (col_name col) (pk_columns_of columns) ->
  occurs_in (col_name col ++ " = EXCLUDED." ++ col_name col) (upsert_sql table columns).
Proof.
  intros Hin Hnot. unfold upsert_sql.
  do 12 apply occurs_in_append_r. apply occurs_in_append_l.
  apply join_contains.
  apply (in_map (fun c => col_name c ++ " = EXCLUDED." ++ col_name c)).
  apply filter_In. split; [exact Hin | ].
  apply negb_true_iff. destruct (existsb _ _) eqn:E; [ | reflexivity].
  apply existsb_eqb_In in E. contradiction.
Qed.

Lemma upsert_sql_assigns_other_columns_witness :
  occurs_in "b = EXCLUDED.b"
    (upsert_sql "t" [mk_column "a" "INTEGER" 1 None 1; mk_column "b" "INTEGER" 1 None 2]).
Proof.
  apply (upsert_sql_assigns_other_columns "t"
           [mk_column "a" "INTEGER" 1 None 1; mk_column "b" "INTEGER" 1 None 2]
           (mk_column "b" "INTEGER" 1 None 2)).
  - right. left. reflexivity.
  - intros [H | []]. discriminate H.
Defined.

Lemma copy_sql_in_block table columns path :
  In (copy_sql table path) (import_block table columns path).
Proof. unfold import_block. right. right. left. reflexivity. Qed.

(** X20. The load script of a finished run reads every processed table from
    the path its rows were exported to. *)
Theorem import_file_copies_exported_csv (yf : year_format) (now : datetime)
    (root : string) (db : database) (a : artifacts) (table : string) :
  run yf now root db = Return a -> In table (list_tables db) ->
  occurs_in (copy_sql table (csv_path_of root table)) (import_file a).
Proof.
  intros Hrun Hin. apply run_artifacts in Hrun. destruct Hrun as [_ ->].
  unfold import_text. apply join_contains.
  unfold import_statements. apply in_flat_map.
  exists table. split; [exact Hin | apply copy_sql_in_block].
Qed.

Lemma import_file_copies_exported_csv_witness :
  let db :=
    mk_database ["companies"]
      (fun _ => Some [mk_column "company_id" "INTEGER" 0 None 1]) (fun _ => Some []) in
  let now := mk_datetime 2024 7 27 20 20 0 0 None in
  exists a,
    run BareYear now "/srv/gold-silver-analysis-v2" db = Return a
    /\ occurs_in
         (copy_sql "companies" "/srv/gold-silver-analysis-v2/exported_csvs/companies.csv")
         (import_file a).
Proof.
  intros db now. eexists. split; [vm_compute; reflexivity | ].
  apply (import_file_copies_exported_csv BareYear now "/srv/gold-silver-analysis-v2" db).
  - vm_compute. reflexivity.
  - left. reflexivity.
Defined.
